(** * traknab: the per-track acquisition pipeline and the batch run

    A shallow embedding of [src/traknab/__main__.py].  The program is glue
    around three collaborators (search, download, transcode) and the file
    system; the embedding keeps the control flow of [download] and [main]
    statement by statement and makes the collaborators explicit:

    - the file system is a finite map from path text to a node kind;
    - the collaborators are an oracle ([World]) that is asked, with the
      history of calls so far, what each call returns or raises;
    - exceptions are the [Raise] branch of a state-and-error monad;
    - the module-level global [filename] is a field of the state. *)

From Stdlib Require Import Ascii ZArith QArith Floats.SpecFloat.
From stdpp Require Import gmap strings list fin_maps pretty.

Open Scope string_scope.
Open Scope list_scope.
Open Scope Z_scope.

(** ** Path text, as [pathlib] reads it

    Paths are kept as the text the program builds with f-strings.  The
    operations below are the textual ones of [pathlib.PurePosixPath]: the
    final component ([name]), its [suffix] and [with_suffix].  The model does
    not normalise paths (repeated separators, [.] components): it reads every
    path literally. *)

Module PathLib.

Definition sep : ascii := "/"%char.
Definition dot : ascii := "."%char.

(** [rsplit c p] cuts [p] at its last occurrence of [c]: [Some (h, n)] with
    [p = h c n] and no [c] in [n], or [None] when [c] does not occur. *)
Fixpoint rsplit (c : ascii) (p : string) : option (string * string) :=
  match p with
  | EmptyString => None
  | String a r =>
      match rsplit c r with
      | Some (h, n) => Some (String a h, n)
      | None => if Ascii.eqb a c then Some (EmptyString, r) else None
      end
  end.

(** [p.name]: the final path component. *)
Definition name (p : string) : string :=
  match rsplit sep p with
  | Some (_, n) => n
  | None => p
  end.

(** [p.parent], when [p] has a separator. *)
Definition parent (p : string) : option string :=
  match rsplit sep p with
  | Some (h, _) => Some h
  | None => None
  end.

(** [PurePath.suffix], on a final component [n]: with [i = n.rfind('.')],
    the text [n[i:]] when [0 < i < len(n) - 1], else the empty string.  The
    function returns the pair [(n[:i], n[i:])], or [(n, "")]. *)
Definition split_suffix (n : string) : string * string :=
  match rsplit dot n with
  | Some (stem, ext) =>
      match stem, ext with
      | EmptyString, _ => (n, EmptyString)
      | _, EmptyString => (n, EmptyString)
      | _, _ => (stem, String dot ext)
      end
  | None => (n, EmptyString)
  end.

(** [PurePath.with_suffix(suffix)]: the old suffix of the final component is
    dropped and [suffix] appended.  ([with_suffix] raises [ValueError] for a
    malformed suffix or an empty name; the program only passes the literal
    ['.mp3'] and paths that end in ['.mp4'].) *)
Definition with_suffix (p suffix : string) : string :=
  match rsplit sep p with
  | Some (h, n) => h +:+ String sep (fst (split_suffix n) +:+ suffix)
  | None => fst (split_suffix p) +:+ suffix
  end.

(** Every [q] with [p = q / r] for some [r]: the directories [p] lies under,
    the outermost last. *)
Fixpoint ancestors (p : string) : list string :=
  match p with
  | EmptyString => []
  | String a r =>
      (if Ascii.eqb a sep then [EmptyString] else []) ++ (String a <$> ancestors r)
  end.

(** Does the text end with a separator? *)
Fixpoint ends_with_sep (s : string) : bool :=
  match s with
  | EmptyString => false
  | String a EmptyString => Ascii.eqb a sep
  | String _ r => ends_with_sep r
  end.

End PathLib.

(** ** The file system

    A finite map from path text to the kind of node found there.  [wf_fs]
    is the tree shape of a real file system: whatever exists lies under
    directories. *)

Inductive node := File | Dir.

Global Instance node_eq_dec : EqDecision node.
Proof. solve_decision. Defined.

Definition is_dir (m : gmap string node) (p : string) : bool :=
  match m !! p with Some Dir => true | _ => false end.

Definition is_file (m : gmap string node) (p : string) : bool :=
  match m !! p with Some File => true | _ => false end.

(** The root (empty text before a leading separator) always exists. *)
Definition dir_or_root (m : gmap string node) (q : string) : bool :=
  match q with EmptyString => true | _ => is_dir m q end.

Definition parent_is_dir (m : gmap string node) (p : string) : bool :=
  match PathLib.parent p with
  | Some h => dir_or_root m h
  | None => true
  end.

(** A regular file stands where the path needs a directory: the system
    then answers [ENOTDIR], which Python raises as [NotADirectoryError]. *)
Definition under_file (m : gmap string node) (p : string) : bool :=
  existsb (is_file m) (PathLib.ancestors p).

Definition wf_fs (m : gmap string node) : bool :=
  forallb (fun pn => forallb (dir_or_root m) (PathLib.ancestors (fst pn)))
          (map_to_list m).

(** ** Floating point: [round(filesize * 1e-6, 2)]

    Python floats are IEEE 754 binary64; [SpecFloat] gives the operations on
    [spec_float] with round-to-nearest-even. *)

Module PyFloat.

Definition prec : Z := 53.
Definition emax : Z := 1024.

(** [float(n)] for a Python [int]: correctly rounded, [None] where Python
    raises [OverflowError]. *)
Definition of_int (n : Z) : option spec_float :=
  match binary_normalize prec emax n 0 false with
  | S754_infinity _ => None
  | f => Some f
  end.

(** The literal [1e-6]: the double nearest to 10^-6, 0x1.0c6f7a0b5ed8dp-20. *)
Definition lit_1e_6 : spec_float := S754_finite false 4722366482869645 (-72).

Definition mul (x y : spec_float) : spec_float := SFmul prec emax x y.

(** [num / den] rounded to the nearest integer, ties to even ([den > 0]). *)
Definition round_half_even (num den : Z) : Z :=
  let q := num / den in
  let r := num mod den in
  match 2 * r ?= den with
  | Lt => q
  | Gt => q + 1
  | Eq => if Z.even q then q else q + 1
  end.

(** [|x| * 100] rounded to an integer, ties to even, for [|x| = m * 2^e]. *)
Definition hundredths (m : positive) (e : Z) : Z :=
  if 0 <=? e then Z.pos m * 100 * 2 ^ e
  else round_half_even (Z.pos m * 100) (2 ^ (- e)).

(** [round(x, 2)]: the exact value of [x] is rounded to two decimals, ties
    to even, and the decimal is converted back to the nearest double. *)
Definition round2 (x : spec_float) : spec_float :=
  match x with
  | S754_finite s m e =>
      match hundredths m e with
      | Z.pos k => SFdiv prec emax (S754_finite s k 0) (S754_finite false 100 0)
      | _ => S754_zero s
      end
  | _ => x
  end.

Definition ltb (x y : spec_float) : bool := SFltb x y.

End PyFloat.

(** ** Exceptions, events, state *)

(** Exceptions of the Python runtime and of the libraries. *)
Inductive builtin_exn :=
| IndexError
| AttributeError
| NameError (name : string)
| OverflowError
| FileExistsError
| FileNotFoundError
| IsADirectoryError
| NotADirectoryError
| ConnectionResetError (msg : string)
| KeyboardInterrupt
| SystemExit
| OtherError (what : string).

(** All exceptions: the two classes this module defines, which only this
    module raises, and the others. *)
Inductive exn :=
| TrackObtainError (msg : string)
| TrackAlreadyDownloaded (msg : string)
| Builtin (e : builtin_exn).

Coercion Builtin : builtin_exn >-> exn.

Global Instance builtin_exn_eq_dec : EqDecision builtin_exn.
Proof. solve_decision. Defined.

Global Instance exn_eq_dec : EqDecision exn.
Proof. solve_decision. Defined.

(** [str(e)] *)
Definition str_exn (e : exn) : string :=
  match e with
  | TrackObtainError msg | TrackAlreadyDownloaded msg
  | Builtin (ConnectionResetError msg) | Builtin (OtherError msg) => msg
  | Builtin (NameError n) => "name '" +:+ n +:+ "' is not defined"
  | _ => ""
  end.

(** What the program does to the outside, in order. *)
Inductive event :=
| ECall (artist track_title target_dir : string)
| EPrint (msg : string)
| EPrintFileSize (file_size : spec_float)
| EMkdir (path : string)
| ESearch (search_term : string)
| EGetAudioOnly (subtype : string)
| EDownload (output_path filename : string) (timeout : Z)
| EAudioFileClip (path : string)
| EWriteAudiofile (path : string)
| EClose
| EUnlink (path : string)
| ESleep (seconds : Z)
| EExit.

Definition is_search (e : event) : bool :=
  match e with ESearch _ => true | _ => false end.

Definition is_download (e : event) : bool :=
  match e with EDownload _ _ _ => true | _ => false end.

Definition is_transcode (e : event) : bool :=
  match e with EAudioFileClip _ | EWriteAudiofile _ | EClose => true | _ => false end.

(** A call to one of the three collaborators. *)
Definition is_collaborator_call (e : event) : bool :=
  match e with
  | ESearch _ | EGetAudioOnly _ | EDownload _ _ _
  | EAudioFileClip _ | EWriteAudiofile _ | EClose => true
  | _ => false
  end.

Record state := mkState {
  fs : gmap string node;
  filename : option string;   (* the module-level global; [None] = unbound *)
  trace : list event
}.

Inductive result (A : Type) :=
| Ok (a : A)
| Raise (e : exn).
Arguments Ok {A} a.
Arguments Raise {A} e.

Definition M (A : Type) : Type := state -> result A * state.

Definition ret {A} (a : A) : M A := fun st => (Ok a, st).
Definition raise {A} (e : exn) : M A := fun st => (Raise e, st).
Definition bind {A B} (m : M A) (k : A -> M B) : M B :=
  fun st => match m st with
            | (Ok a, st') => k a st'
            | (Raise e, st') => (Raise e, st')
            end.

Declare Scope py_scope.
Delimit Scope py_scope with py.
Notation "x <- m ;; k" := (bind m (fun x => k))
  (at level 100, m at next level, right associativity) : py_scope.
Notation "m ;; k" := (bind m (fun _ => k))
  (at level 100, right associativity) : py_scope.
Open Scope py_scope.

Definition lift {A} (r : result A) : M A := fun st => (r, st).

Definition emit (e : event) : M unit :=
  fun st => (Ok tt, mkState (fs st) (filename st) (trace st ++ [e])).

Definition print (msg : string) : M unit := emit (EPrint msg).

Definition set_filename (f : string) : M unit :=
  fun st => (Ok tt, mkState (fs st) (Some f) (trace st)).

(** Reading the global: [NameError] while it is unbound. *)
Definition get_filename : M string :=
  fun st => match filename st with
            | Some f => (Ok f, st)
            | None => (Raise (NameError "filename"), st)
            end.

Definition put_fs (m : gmap string node) : M unit :=
  fun st => (Ok tt, mkState m (filename st) (trace st)).

Definition path_is_dir (p : string) : M bool := fun st => (Ok (is_dir (fs st) p), st).
Definition path_is_file (p : string) : M bool := fun st => (Ok (is_file (fs st) p), st).

(** [Path(p).mkdir()]: no [parents], no [exist_ok].  Without a parent
    directory the call fails: [NotADirectoryError] when a regular file stands
    in the path, [FileNotFoundError] otherwise. *)
Definition mkdir (p : string) : M unit :=
  emit (EMkdir p) ;;
  fun st => match fs st !! p with
            | Some _ => (Raise FileExistsError, st)
            | None => if parent_is_dir (fs st) p
                      then put_fs (<[p := Dir]> (fs st)) st
                      else if under_file (fs st) p
                      then (Raise NotADirectoryError, st)
                      else (Raise FileNotFoundError, st)
            end.

(** [Path(p).unlink(missing_ok)]: [missing_ok] tolerates a missing file
    only, not a regular file in the place of a directory of the path. *)
Definition unlink (missing_ok : bool) (p : string) : M unit :=
  emit (EUnlink p) ;;
  fun st => match fs st !! p with
            | Some File => put_fs (delete p (fs st)) st
            | Some Dir => (Raise IsADirectoryError, st)
            | None => if under_file (fs st) p then (Raise NotADirectoryError, st)
                      else if missing_ok then (Ok tt, st)
                      else (Raise FileNotFoundError, st)
            end.

(** Opening [p] for writing creates the file or truncates it. *)
Definition create_file (p : string) : M unit :=
  fun st => match fs st !! p with
            | Some Dir => (Raise IsADirectoryError, st)
            | _ => if parent_is_dir (fs st) p
                   then put_fs (<[p := File]> (fs st)) st
                   else if under_file (fs st) p
                   then (Raise NotADirectoryError, st)
                   else (Raise FileNotFoundError, st)
            end.

(** [try: m except e: h e], where [h e = None] lets [e] propagate. *)
Definition try_except {A} (m : M A) (h : exn -> option (M A)) : M A :=
  fun st => match m st with
            | (Ok a, st') => (Ok a, st')
            | (Raise e, st') =>
                match h e with
                | Some k => k st'
                | None => (Raise e, st')
                end
            end.

Fixpoint for_each {A} (l : list A) (body : A -> M unit) : M unit :=
  match l with
  | [] => ret tt
  | x :: l' => body x ;; for_each l' body
  end.

(** ** The collaborators

    Search results are [pytube] objects whose attributes fetch lazily, so
    every access may raise.  The oracle is asked with the history of events up
    to and including the call, so its answers may change from call to call.

    An interruption reaches the program where it waits: as the answer of a
    collaborator, or while the arguments of a call are validated.  A signal
    delivered while the program itself prints, or while the handler of an
    earlier interruption runs, is not part of the model. *)

Inductive io_outcome :=
| Done                                 (* returned; the file is on disk *)
| Failed (partial : bool) (e : builtin_exn).   (* raised [e]; [partial]: a file was left behind *)

(** What a collaborator answers: a value, or an exception that is not one
    of this module's. *)
Inductive answer (A : Type) :=
| Returns (a : A)
| Raises (e : builtin_exn).
Arguments Returns {A} a.
Arguments Raises {A} e.

Definition result_of {A} (x : answer A) : result A :=
  match x with
  | Returns a => Ok a
  | Raises e => Raise e
  end.

Record Stream := mkStream {
  filesize : answer Z;
  stream_download : io_outcome
}.

Record YouTube := mkYouTube {
  yt_title : answer string;
  yt_length : answer Z;
  yt_get_audio_only : answer (option Stream)   (* [streams.get_audio_only(subtype='webm')] *)
}.

Record World := mkWorld {
  (* a [KeyboardInterrupt] delivered while the argument-validating wrapper
     of a call runs, before the first statement of the body *)
  interrupt_pending : list event -> bool;
  search_results : list event -> string -> answer (list YouTube);
  open_clip : list event -> string -> option builtin_exn;
  write_clip : list event -> string -> io_outcome;
  close_clip : list event -> option builtin_exn
}.

(** ** Module-level constants *)

Definition TIMEOUT_THRESHOLD : Z := 30.
Definition TRACKLENGTH_UPPER_THRESHOLD : Z := 60 * 15.
Definition FILESIZE_LOWER_THRESHOLD : Z := 2.
Definition SECONDS_TO_SLEEP : Z := 0.

(** A double quote, for the messages that quote a name. *)
Definition dq : string := String (ascii_of_nat 34) EmptyString.

Definition seconds_to_mins (total_seconds : Z) : string :=
  let seconds_in_a_minute := 60 in
  let minutes := total_seconds / seconds_in_a_minute in
  let seconds := total_seconds - (minutes * seconds_in_a_minute) in
  pretty minutes +:+ "m " +:+ pretty seconds +:+ "s".

(** [round(filesize * 1e-6, 2)] *)
Definition file_size_mb (size_bytes : Z) : result spec_float :=
  match PyFloat.of_int size_bytes with
  | Some f => Ok (PyFloat.round2 (PyFloat.mul f PyFloat.lit_1e_6))
  | None => Raise OverflowError
  end.

(** [file_size < n] for a small [int] [n] (exactly representable). *)
Definition float_lt_int (x : spec_float) (n : Z) : bool :=
  PyFloat.ltb x (binary_normalize PyFloat.prec PyFloat.emax n 0 false).

(** [search_term] as the per-track operation uses it: [if not search_term]
    holds for [None] and for the empty string. *)
Definition effective_search_term (artist track_title : string)
    (search_term : option string) : string :=
  match search_term with
  | Some (String a s) => String a s
  | _ => artist +:+ " " +:+ track_title
  end.

Section Program.

Context (DOWNLOAD_PATH : string) (W : World).

(** A collaborator call: record it, then ask the oracle. *)
Definition ask {A} (e : event) (answer : list event -> result A) : M A :=
  emit e ;; (fun st => (answer (trace st), st)).

Definition of_failure (o : option builtin_exn) : result unit :=
  match o with Some e => Raise e | None => Ok tt end.

(** A collaborator writing the file at [p]. *)
Definition perform_io (p : string) (o : io_outcome) : M unit :=
  match o with
  | Done => create_file p
  | Failed partial e =>
      (if partial then try_except (create_file p) (fun _ => Some (ret tt)) else ret tt) ;;
      raise e
  end.

Definition Search (search_term : string) : M (list YouTube) :=
  ask (ESearch search_term) (fun h => result_of (search_results W h search_term)).

(** [search_results[0]] *)
Definition item0 {A} (l : list A) : M A :=
  match l with
  | x :: _ => ret x
  | [] => raise IndexError
  end.

Definition get_audio_only (yt : YouTube) (subtype : string) : M (option Stream) :=
  ask (EGetAudioOnly subtype) (fun _ => result_of (yt_get_audio_only yt)).

(** [audio_stream.filesize]; the attribute access fails on [None]. *)
Definition stream_filesize (audio_stream : option Stream) : M Z :=
  match audio_stream with
  | Some s => lift (result_of (filesize s))
  | None => raise AttributeError
  end.

(** [audio_stream.download(output_path=..., filename=..., timeout=...)] *)
Definition Stream_download (audio_stream : option Stream)
    (output_path filename : string) (timeout : Z) : M unit :=
  emit (EDownload output_path filename timeout) ;;
  match audio_stream with
  | Some s => perform_io (output_path +:+ "/" +:+ filename) (stream_download s)
  | None => raise AttributeError
  end.

Definition AudioFileClip (file_path : string) : M unit :=
  ask (EAudioFileClip file_path) (fun h => of_failure (open_clip W h file_path)).

Definition write_audiofile (output_path : string) : M unit :=
  emit (EWriteAudiofile output_path) ;;
  (fun st => perform_io output_path (write_clip W (trace st) output_path) st).

Definition close : M unit :=
  ask EClose (fun h => of_failure (close_clip W h)).

(** The intermediate file and the durable output of a track request. *)
Definition intermediate_path (artist track_title target_dir : string) : string :=
  DOWNLOAD_PATH +:+ "/" +:+ target_dir +:+ "/" +:+ (artist +:+ " - " +:+ track_title +:+ ".mp4").

Definition output_path_of (artist track_title target_dir : string) : string :=
  PathLib.with_suffix (intermediate_path artist track_title target_dir) ".mp3".

(** [download], the function as defined (lines 54 to 130). *)
Definition download (artist track_title target_dir : string)
    (search_term : option string) : M unit :=
  let filename := artist +:+ " - " +:+ track_title +:+ ".mp4" in
  set_filename filename ;;
  (* Validating target directory *)
  let dir_path := DOWNLOAD_PATH +:+ "/" +:+ target_dir in
  present <- path_is_dir dir_path ;;
  (if present then ret tt
   else
     print ("Directory " +:+ target_dir +:+ " does not exist in " +:+ DOWNLOAD_PATH
            +:+ ". Creating...") ;;
     mkdir dir_path) ;;
  (* Checking if the track has already been downloaded *)
  acquired <- path_is_file
    (PathLib.with_suffix (DOWNLOAD_PATH +:+ "/" +:+ target_dir +:+ "/" +:+ filename) ".mp3") ;;
  if acquired then
    raise (TrackAlreadyDownloaded
             ("Skipping " +:+ dq +:+ target_dir +:+ "/" +:+ filename +:+ dq
              +:+ " as it already has been downloaded..."))
  else
  let search_term := effective_search_term artist track_title search_term in
  print ("Searching for " +:+ dq +:+ artist +:+ " - " +:+ track_title +:+ dq +:+ "...") ;;
  (* Obtain search results *)
  search_results <- Search search_term ;;
  (* Selecting first result *)
  yt <- item0 search_results ;;
  title <- lift (result_of (yt_title yt)) ;;
  print ("Obtained result: " +:+ dq +:+ title +:+ dq) ;;
  track_length <- lift (result_of (yt_length yt)) ;;
  print ("Track length: " +:+ seconds_to_mins track_length) ;;
  if track_length >? TRACKLENGTH_UPPER_THRESHOLD then
    raise (TrackObtainError "Unexpectedly long track. Skipping...")
  else
  (* Obtaining audio stream *)
  audio_stream <- get_audio_only yt "webm" ;;
  size_bytes <- stream_filesize audio_stream ;;
  file_size <- lift (file_size_mb size_bytes) ;;
  emit (EPrintFileSize file_size) ;;
  if float_lt_int file_size FILESIZE_LOWER_THRESHOLD then
    raise (TrackObtainError "Unexpectedly small file size. Skipping...")
  else
  (* Downloading and writing to mp4 file *)
  let output_path := DOWNLOAD_PATH +:+ "/" +:+ target_dir in
  print "Downloading..." ;;
  Stream_download audio_stream output_path filename TIMEOUT_THRESHOLD ;;
  print "Download complete." ;;
  (* Loading the mp4 file and creating AudioFileClip object *)
  let file_path := output_path +:+ "/" +:+ filename in
  AudioFileClip file_path ;;
  let original_path := file_path in
  (* Creating a new path object and editing the file extension *)
  let new_path := PathLib.with_suffix original_path ".mp3" in
  let output_path := new_path in
  (* Writing the new file *)
  write_audiofile output_path ;;
  close ;;
  (* Deleting the original file *)
  unlink false original_path.

(** The [@validate_arguments] wrapper: what the name [download] is bound to
    and what [main] calls.  The wrapper runs before the body does, so an
    interrupt taken there precedes the assignment of the global. *)
Definition validate_arguments {A} (call : event) (body : M A) : M A :=
  emit call ;;
  pending <- (fun st => (Ok (interrupt_pending W (trace st)), st)) ;;
  if (pending : bool) then raise KeyboardInterrupt else body.

Definition download_validated (artist track_title target_dir : string)
    (search_term : option string) : M unit :=
  validate_arguments (ECall artist track_title target_dir)
                     (download artist track_title target_dir search_term).

(** The body of [except (ConnectionResetError, KeyboardInterrupt) as e]. *)
Definition cleanup_and_exit (genre : string) (e : exn) : M unit :=
  filename <- get_filename ;;
  unlink true (DOWNLOAD_PATH +:+ "/" +:+ genre +:+ "/" +:+ filename) ;;
  print ("Exception raised: " +:+ str_exn e) ;;
  print "Breaking..." ;;
  emit EExit ;;
  raise SystemExit.

(** The [except] clauses of [main], in order. *)
Definition handlers (genre : string) (e : exn) : option (M unit) :=
  match e with
  | TrackAlreadyDownloaded _ => Some (ret tt)
  | TrackObtainError _ => Some (print (str_exn e))
  | Builtin (ConnectionResetError _) | Builtin KeyboardInterrupt =>
      Some (cleanup_and_exit genre e)
  | _ => None
  end.

(** One iteration of the innermost loop: the [try] statement. *)
Definition attempt (genre artist track_title : string) : M unit :=
  try_except
    ((* Attemping the download *)
     download_validated artist track_title genre None ;;
     (* Sleeping to avoid IP ban *)
     if SECONDS_TO_SLEEP =? 0 then ret tt
     else
       print ("Sleeping for " +:+ pretty SECONDS_TO_SLEEP +:+ " seconds...") ;;
       emit (ESleep SECONDS_TO_SLEEP))
    (handlers genre).

(** [tracks]: the parsed TOML, a mapping genre -> artist -> titles, kept in
    the iteration order of the dictionaries. *)
Definition main (tracks : list (string * list (string * list string))) : M unit :=
  print "Download routine initialised." ;;
  for_each tracks (fun '(genre, tracks_dict) =>
    for_each tracks_dict (fun '(artist, list_of_track_titles) =>
      for_each list_of_track_titles (fun track_title =>
        attempt genre artist track_title))) ;;
  print "Download routine complete.".

End Program.

(** The initial state of the process: the global is unbound. *)
Definition initial_state (m : gmap string node) : state := mkState m None [].

(** ** Vocabulary of the specification

    Definitions used to state the properties: what a run added to the
    trace, the flat list of track requests of a configuration, and the
    relation between the state before and after a piece of the program. *)

(** The events a run appended: [trace st'] after [trace st]. *)
Definition new_events (st st' : state) : list event :=
  drop (length (trace st)) (trace st').

(** The per-track calls among some events, as (genre, artist, title). *)
Definition calls (evs : list event) : list (string * string * string) :=
  omap (fun e => match e with
                 | ECall artist track_title target_dir =>
                     Some (target_dir, artist, track_title)
                 | _ => None
                 end) evs.

(** The track requests of a configuration, genre by genre, artist by artist,
    title by title. *)
Definition triples (tracks : list (string * list (string * list string)))
    : list (string * string * string) :=
  flat_map (fun '(genre, tracks_dict) =>
    flat_map (fun '(artist, list_of_track_titles) =>
      map (fun track_title => (genre, artist, track_title)) list_of_track_titles)
      tracks_dict)
    tracks.

(** The target directory is there or can be made: absent, under a
    directory. *)
Definition dir_ready (m : gmap string node) (dir_path : string) : bool :=
  is_dir m dir_path
  || (bool_decide (m !! dir_path = None) && parent_is_dir m dir_path).

(** The state in which the search collaborator is called, for a request
    that passes the directory and already-downloaded checks: the global is
    set, the target directory made if it was missing, and the search
    announced. *)
Definition state_at_search (DOWNLOAD_PATH artist track_title target_dir : string)
    (st : state) : state :=
  let dir_path := DOWNLOAD_PATH +:+ "/" +:+ target_dir in
  mkState
    (if is_dir (fs st) dir_path then fs st else <[dir_path := Dir]> (fs st))
    (Some (artist +:+ " - " +:+ track_title +:+ ".mp4"))
    ((if is_dir (fs st) dir_path then trace st
      else (trace st
            ++ [EPrint ("Directory " +:+ target_dir +:+ " does not exist in "
                        +:+ DOWNLOAD_PATH +:+ ". Creating...")])
           ++ [EMkdir dir_path])
     ++ [EPrint ("Searching for " +:+ dq +:+ artist +:+ " - " +:+ track_title
                 +:+ dq +:+ "...")]).

(** What the search collaborator answers to the request made in [st]. *)
Definition search_answer (DOWNLOAD_PATH : string) (W : World)
    (artist track_title target_dir : string) (search_term : option string)
    (st : state) : answer (list YouTube) :=
  let q := effective_search_term artist track_title search_term in
  search_results W
    (trace (state_at_search DOWNLOAD_PATH artist track_title target_dir st) ++ [ESearch q]) q.

(** The request passes the two checks that precede the search. *)
Definition reaches_search (DOWNLOAD_PATH artist track_title target_dir : string)
    (st : state) : bool :=
  dir_ready (fs st) (DOWNLOAD_PATH +:+ "/" +:+ target_dir)
  && negb (is_file (fs st) (output_path_of DOWNLOAD_PATH artist track_title target_dir)).

Definition no_download_or_transcode (e : event) : Prop :=
  is_download e = false /\ is_transcode e = false.

(** A piece of the program relates the state before to the state after:
    the trace grows by events in [Pev], the file system moves along [Qfs],
    the global along [Qfn]. *)
Record step_rel (Pev : event -> Prop) (Qfs : relation (gmap string node))
    (Qfn : relation (option string)) (st st' : state) : Prop := mkStepRel {
  sr_trace : exists evs, trace st' = trace st ++ evs /\ Forall Pev evs;
  sr_fs : Qfs (fs st) (fs st');
  sr_fn : Qfn (filename st) (filename st')
}.

(** [m] keeps [R]: whatever the outcome, the final state is [R]-related to
    the initial one. *)
Definition keeps {A} (R : relation state) (m : M A) : Prop :=
  forall st, R st (snd (m st)).

(** The events of one run of [download]. *)
Inductive download_emits (DOWNLOAD_PATH artist track_title target_dir : string)
    (search_term : option string) : event -> Prop :=
| de_print msg : download_emits DOWNLOAD_PATH artist track_title target_dir search_term (EPrint msg)
| de_size x : download_emits DOWNLOAD_PATH artist track_title target_dir search_term (EPrintFileSize x)
| de_mkdir :
    download_emits DOWNLOAD_PATH artist track_title target_dir search_term
      (EMkdir (DOWNLOAD_PATH +:+ "/" +:+ target_dir))
| de_search :
    download_emits DOWNLOAD_PATH artist track_title target_dir search_term
      (ESearch (effective_search_term artist track_title search_term))
| de_audio :
    download_emits DOWNLOAD_PATH artist track_title target_dir search_term
      (EGetAudioOnly "webm")
| de_download :
    download_emits DOWNLOAD_PATH artist track_title target_dir search_term
      (EDownload (DOWNLOAD_PATH +:+ "/" +:+ target_dir)
                 (artist +:+ " - " +:+ track_title +:+ ".mp4") TIMEOUT_THRESHOLD)
| de_clip :
    download_emits DOWNLOAD_PATH artist track_title target_dir search_term
      (EAudioFileClip (intermediate_path DOWNLOAD_PATH artist track_title target_dir))
| de_write :
    download_emits DOWNLOAD_PATH artist track_title target_dir search_term
      (EWriteAudiofile (output_path_of DOWNLOAD_PATH artist track_title target_dir))
| de_close : download_emits DOWNLOAD_PATH artist track_title target_dir search_term EClose
| de_unlink :
    download_emits DOWNLOAD_PATH artist track_title target_dir search_term
      (EUnlink (intermediate_path DOWNLOAD_PATH artist track_title target_dir)).

(** What one run of [download] may do to the file system, path by path:
    nothing; make the target directory; create, overwrite or delete the
    intermediate file; create or overwrite the output file. *)
Definition fs_step (dir_path inter out : string) (m m' : gmap string node) : Prop :=
  forall p,
    m' !! p = m !! p
    \/ (p = dir_path /\ m !! p = None /\ m' !! p = Some Dir)
    \/ (p = inter /\ m !! p <> Some Dir)
    \/ (p = out /\ m !! p <> Some Dir /\ m' !! p = Some File).

(** What one run of [download] may do to the global: leave it (never, in
    fact) or set it to the file name of the request. *)
Definition fn_step (fname : string) (f f' : option string) : Prop :=
  f' = f \/ f' = Some fname.

(** *** The batch *)

(** Outcomes of one call of the per-track operation. *)
Definition succeeded (r : result unit) : bool :=
  match r with Ok _ => true | _ => false end.

Definition skipped (r : result unit) : bool :=
  match r with Raise (TrackAlreadyDownloaded _) => true | _ => false end.

Definition acquired (r : result unit) : bool := succeeded r || skipped r.

(** The loop nest of [main], over the flat list of requests. *)
Definition batch (DOWNLOAD_PATH : string) (W : World)
    (l : list (string * string * string)) : M unit :=
  for_each l (fun '(genre, artist, track_title) =>
    attempt DOWNLOAD_PATH W genre artist track_title).

(** Run from [st], every request of [l] in turn has a call whose result
    satisfies [P].  (For the results used below, [succeeded], [skipped] and
    [acquired], the iteration of [main] continues from the state the call
    leaves.) *)
Fixpoint every_download (DOWNLOAD_PATH : string) (W : World)
    (P : result unit -> bool) (l : list (string * string * string))
    (st : state) : bool :=
  match l with
  | [] => true
  | (genre, artist, track_title) :: l' =>
      let '(r, st') :=
        download_validated DOWNLOAD_PATH W artist track_title genre None st in
      P r && every_download DOWNLOAD_PATH W P l' st'
  end.

Definition request_output (DOWNLOAD_PATH : string) (x : string * string * string) : string :=
  let '(genre, artist, track_title) := x in
  output_path_of DOWNLOAD_PATH artist track_title genre.

Definition request_dir (DOWNLOAD_PATH : string) (x : string * string * string) : string :=
  let '(genre, _, _) := x in DOWNLOAD_PATH +:+ "/" +:+ genre.

(** The state after the first line of [main]. *)
Definition after_banner (st : state) : state :=
  mkState (fs st) (filename st) (trace st ++ [EPrint "Download routine initialised."]).

(** A path that is no request's intermediate file. *)
Definition survives (DOWNLOAD_PATH p : string) : Prop :=
  forall a t d, p <> intermediate_path DOWNLOAD_PATH a t d.

(** What a batch without interruption keeps of the file system:
    directories, and files that are no intermediate file. *)
Definition kept (DOWNLOAD_PATH : string) (m m' : gmap string node) : Prop :=
  (forall p, m !! p = Some Dir -> m' !! p = Some Dir)
  /\ (forall p, survives DOWNLOAD_PATH p -> m !! p = Some File -> m' !! p = Some File).

Definition not_a_call (e : event) : Prop :=
  match e with ECall _ _ _ => False | _ => True end.

Definition no_collaborator_call (e : event) : Prop := is_collaborator_call e = false.

(** [m] raises only exceptions in [E]. *)
Definition raises_only {A} (E : exn -> Prop) (m : M A) : Prop :=
  forall st e, fst (m st) = Raise e -> E e.

Definition not_skip (e : exn) : Prop :=
  match e with TrackAlreadyDownloaded _ => False | _ => True end.

(** The state in which the body of the per-track operation starts. *)
Definition at_call (artist track_title target_dir : string) (st : state) : state :=
  mkState (fs st) (filename st) (trace st ++ [ECall artist track_title target_dir]).

(** The two exceptions the last [except] clause of [main] catches. *)
Definition is_interruption (e : exn) : Prop :=
  e = KeyboardInterrupt \/ exists msg, e = ConnectionResetError msg.

(** No constraint: any event, any change. *)
Definition any_event : event -> Prop := fun _ => True.
Definition any_fs : relation (gmap string node) := fun _ _ => True.
Definition any_fn : relation (option string) := fun _ _ => True.

(** The trace only grows. *)
Definition grows : relation state := step_rel any_event any_fs any_fn.

(** *** Sample inputs *)

Module Samples.

Definition DL : string := "/downloads".

Definition stream_of (size_bytes : Z) : Stream := mkStream (Returns size_bytes) Done.

Definition video (seconds size_bytes : Z) : YouTube :=
  mkYouTube (Returns "Official video") (Returns seconds)
            (Returns (Some (stream_of size_bytes))).

(** A world without interruptions or failures, in which every search
    returns [results]. *)
Definition world_of (results : list YouTube) : World :=
  mkWorld (fun _ => false) (fun _ _ => Returns results)
          (fun _ _ => None) (fun _ _ => Done) (fun _ => None).

Definition W_ok : World := world_of [video 200 5000000].
Definition W_long : World := world_of [video 901 5000000].
Definition W_limit : World := world_of [video 900 2000000].
Definition W_small : World := world_of [video 200 1995000].
Definition W_empty : World := world_of [].

(** A world in which Ctrl-C arrives while the arguments of every call are
    validated. *)
Definition W_ctrl_c : World :=
  mkWorld (fun _ => true) (fun _ _ => Returns [video 200 5000000])
          (fun _ _ => None) (fun _ _ => Done) (fun _ => None).

(** The download root alone; with a genre directory; with an output file;
    with an intermediate file left by an earlier run. *)
Definition fs_root : gmap string node := {[ DL := Dir ]}.
Definition fs_genre : gmap string node := <[DL +:+ "/house" := Dir]> fs_root.
Definition fs_done : gmap string node :=
  <[DL +:+ "/house/Daft Punk - One More Time.mp3" := File]> fs_genre.
Definition fs_leftover : gmap string node :=
  <[DL +:+ "/house/Daft Punk - One More Time.mp4" := File]> fs_genre.

Definition one_track : list (string * list (string * list string)) :=
  [("house", [("Daft Punk", ["One More Time"])])].

Definition two_tracks : list (string * list (string * list string)) :=
  [("house", [("Daft Punk", ["One More Time"; "Around the World"])])].

Definition eight_tracks : list (string * list (string * list string)) :=
  [("house", [("Daft Punk", ["One More Time"; "Around the World"]);
              ("Cassius", ["Feeling for You"; "1999"])]);
   ("dub", [("King Tubby", ["Dub from the Roots"; "A Ruffer Version"]);
            ("Scientist", ["Your Teeth in My Neck"; "Plague of Zombies"])])].

(** Ctrl-C arrives while the arguments of the second call are validated. *)
Definition W_ctrl_c_second : World :=
  mkWorld (fun h => Nat.eqb (length (calls h)) 2)
          (fun _ _ => Returns [video 200 5000000])
          (fun _ _ => None) (fun _ _ => Done) (fun _ => None).

(** The connection is reset in the middle of the download, which leaves a
    partial intermediate file. *)
Definition W_reset : World :=
  world_of [mkYouTube (Returns "Official video") (Returns 200)
              (Returns (Some (mkStream (Returns 5000000)
                 (Failed true (ConnectionResetError "Connection reset by peer")))))].

Definition fs_leftover_second : gmap string node :=
  <[DL +:+ "/house/Daft Punk - Around the World.mp4" := File]> fs_genre.

End Samples.
(** ** Further vocabulary

    Definitions used by the properties of the per-track operation and of
    the batch that go beyond the claims above. *)

(** The text holds no letter [c]. *)
Fixpoint free_of (c : ascii) (s : string) : bool :=
  match s with
  | EmptyString => true
  | String a r => negb (Ascii.eqb a c) && free_of c r
  end.

(** What [download] has done when it stops before the download step: the
    events are none of the download or transcode collaborators', only the
    target directory may be new, and a [TrackObtainError] carries one of the
    two messages. *)
Definition stopped_early (dir_path : string) (e : exn) (st st' : state) : Prop :=
  (exists evs, trace st' = trace st ++ evs /\ Forall no_download_or_transcode evs)
  /\ (forall p, p <> dir_path -> fs st' !! p = fs st !! p)
  /\ match e with
     | TrackObtainError msg =>
         msg = "Unexpectedly long track. Skipping..."
         \/ msg = "Unexpectedly small file size. Skipping..."
     | _ => True
     end.

(** The global is unbound or holds the file name of some request. *)
Definition names_request (f : option string) : Prop :=
  match f with
  | None => True
  | Some f => exists artist track_title, f = artist +:+ " - " +:+ track_title +:+ ".mp4"
  end.

(** Across a piece of the batch: when the global is as above before, it is
    so after, and the file system kept its directories and the files that
    are no intermediate file. *)
Definition keeps_files (DOWNLOAD_PATH : string) (st st' : state) : Prop :=
  names_request (filename st) ->
  names_request (filename st') /\ kept DOWNLOAD_PATH (fs st) (fs st').

(** The exceptions [main] lets through: neither of this module's two. *)
Definition escapes_main (e : exn) : bool :=
  match e with
  | TrackObtainError _ | TrackAlreadyDownloaded _ => false
  | Builtin _ => true
  end.

(** The results of the calls of the per-track operation in a run of the
    loop, in order; the run ends with the first iteration that raises. *)
Fixpoint outcomes (DOWNLOAD_PATH : string) (W : World)
    (l : list (string * string * string)) (st : state) : list (result unit) :=
  match l with
  | [] => []
  | (genre, artist, track_title) :: l' =>
      fst (download_validated DOWNLOAD_PATH W artist track_title genre None st)
      :: match attempt DOWNLOAD_PATH W genre artist track_title st with
         | (Ok _, st') => outcomes DOWNLOAD_PATH W l' st'
         | (Raise _, _) => []
         end
  end.

(** A call result that [main] takes in its stride: success, or one of this
    module's two exceptions. *)
Definition handled (r : result unit) : bool :=
  match r with Raise (Builtin _) => false | _ => true end.

(** The two exceptions the last [except] clause of [main] catches. *)
Definition interruption (b : builtin_exn) : bool :=
  match b with ConnectionResetError _ | KeyboardInterrupt => true | _ => false end.

(** *** Importing the module *)

(** [Path(p).suffix] *)
Definition path_suffix (p : string) : string := snd (PathLib.split_suffix (PathLib.name p)).

(** What importing the module gives: the two module-level values [main]
    and [download] use, or the failure of an [assert], or the exception of
    opening and parsing the tracks file. *)
Inductive import_result :=
| Imported (DOWNLOAD_PATH : string) (tracks : list (string * list (string * list string)))
| AssertionError (msg : string)
| LoadError (e : builtin_exn).

(** The module-level statements (lines 12 to 32).  [base] is the text of
    [Path(__file__).parents[1]]; [resolve] is [Path.resolve], which only the
    messages use; [load] is what opening the tracks file and parsing it as
    TOML gives. *)
Definition import_module (base : string) (resolve : string -> string)
    (m : gmap string node)
    (load : string -> answer (list (string * list (string * list string))))
    : import_result :=
  let DOWNLOAD_PATH := base +:+ "/downloads" in
  let TRACKS_PATH := base +:+ "/tracks.toml" in
  (* Path validation *)
  if negb (is_dir m DOWNLOAD_PATH) then
    AssertionError ("Download path must lead to a directory. Check the path: "
                    +:+ resolve DOWNLOAD_PATH)
  else if negb (String.eqb (path_suffix TRACKS_PATH) ".toml") then
    AssertionError ("Tracks file must be a TOML. Check the path: " +:+ resolve TRACKS_PATH)
  else if negb (is_file m TRACKS_PATH) then
    AssertionError ("Tracks path must lead to a file. Check the path: "
                    +:+ resolve TRACKS_PATH)
  else
  (* Loading the tracks file *)
  match load TRACKS_PATH with
  | Returns tracks => Imported DOWNLOAD_PATH tracks
  | Raises e => LoadError e
  end.

(** *** More sample inputs *)

Module Cases.
Import Samples.

(** A world in which the transcoder fails while it writes the output. *)
Definition W_transcode_fails : World :=
  mkWorld (fun _ => false) (fun _ _ => Returns [video 200 5000000])
          (fun _ _ => None)
          (fun _ _ => Failed false (OtherError "ffmpeg exited with status 1"))
          (fun _ => None).

(** A regular file where the genre directory should be. *)
Definition fs_blocked : gmap string node := <[DL +:+ "/house" := File]> fs_root.

(** A regular file in the place of a directory of the path. *)
Definition fs_file_in_path : gmap string node := <[DL +:+ "/f" := File]> fs_root.

(** A directory named like the start of a file name that holds a
    separator. *)
Definition fs_nested : gmap string node := <[DL +:+ "/house/A - x" := Dir]> fs_genre.

(** An installation: the download root and the tracks file next to the
    package. *)
Definition fs_app : gmap string node :=
  <["/app/tracks.toml" := File]> (<["/app/downloads" := Dir]> ∅).

End Cases.


(** * Properties *)

(** ** Path text *)

Module PathLemmas.
Import PathLib.

Lemma app_nil_l (s : string) : "" +:+ s = s.
Proof. reflexivity. Qed.

Lemma app_cons (a : ascii) (s t : string) : String a s +:+ t = String a (s +:+ t).
Proof. reflexivity. Qed.

Lemma app_nil_r (s : string) : s +:+ "" = s.
Proof. induction s as [|a s IH]; [done|]. by rewrite app_cons, IH. Qed.

Lemma app_assoc (s t u : string) : (s +:+ t) +:+ u = s +:+ (t +:+ u).
Proof. induction s as [|a s IH]; [done|]. by rewrite !app_cons, IH. Qed.

Lemma app_eq_nil (s t : string) : s +:+ t = "" -> s = "" /\ t = "".
Proof. destruct s; [rewrite app_nil_l; auto | rewrite app_cons; discriminate]. Qed.

(** Two texts that agree after appending endings of the same length have
    the same ending. *)
Lemma app_inj_end (s t u v : string) :
  String.length u = String.length v -> s +:+ u = t +:+ v -> s = t /\ u = v.
Proof.
  revert t. induction s as [|a s IH]; intros t Hlen Heq.
  - destruct t as [|b t]; [rewrite !app_nil_l in Heq; auto|].
    rewrite app_nil_l in Heq. exfalso.
    assert (H : String.length u = String.length (String b t +:+ v)) by (by rewrite Heq).
    rewrite app_cons in H. simpl in H.
    assert (Hge : (String.length v <= String.length (t +:+ v))%nat).
    { clear. induction t as [|c t IH]; [by rewrite app_nil_l|].
      rewrite app_cons. simpl. lia. }
    lia.
  - destruct t as [|b t].
    + rewrite app_nil_l in Heq. exfalso.
      assert (H : String.length (String a s +:+ u) = String.length v) by (by rewrite Heq).
      rewrite app_cons in H. simpl in H.
      assert (Hge : (String.length u <= String.length (s +:+ u))%nat).
      { clear. induction s as [|c s IH]; [by rewrite app_nil_l|].
        rewrite app_cons. simpl. lia. }
      lia.
    + rewrite !app_cons in Heq. injection Heq as -> Heq.
      destruct (IH t Hlen Heq) as [-> ->]. auto.
Qed.

Lemma mp3_is_not_mp4 (s t : string) : s +:+ ".mp3" <> t +:+ ".mp4".
Proof. intros H. apply app_inj_end in H as [_ H]; [discriminate | reflexivity]. Qed.

(** *** [rsplit] *)

Lemma rsplit_Some (c : ascii) (p h n : string) :
  rsplit c p = Some (h, n) -> p = h +:+ String c n /\ rsplit c n = None.
Proof.
  revert h n. induction p as [|a r IH]; intros h n H; simpl in H; [discriminate|].
  destruct (rsplit c r) as [[h' n']|] eqn:Hr.
  - injection H as <- <-. destruct (IH h' n' eq_refl) as [-> Hn].
    by rewrite app_cons.
  - destruct (Ascii.eqb_spec a c) as [->|]; [|discriminate].
    injection H as <- <-. by rewrite app_nil_l.
Qed.

(** Cutting after a separator: the last separator of [x c y] is the one of
    [y] when [y] has one, and the written one otherwise. *)
Lemma rsplit_app_sep (c : ascii) (x y : string) :
  rsplit c (x +:+ String c y) =
  match rsplit c y with
  | Some (h, n) => Some (x +:+ String c h, n)
  | None => Some (x, y)
  end.
Proof.
  induction x as [|a x IH].
  - rewrite app_nil_l. simpl. destruct (rsplit c y) as [[h n]|]; [done|].
    by rewrite Ascii.eqb_refl.
  - rewrite app_cons. simpl. rewrite IH.
    destruct (rsplit c y) as [[h n]|]; by rewrite ?app_cons.
Qed.

(** Appending text without the separator extends the final part. *)
Lemma rsplit_app_free (c : ascii) (x y : string) :
  rsplit c y = None ->
  rsplit c (x +:+ y) =
  match rsplit c x with
  | Some (h, n) => Some (h, n +:+ y)
  | None => None
  end.
Proof.
  intros Hy. induction x as [|a x IH].
  - by rewrite app_nil_l.
  - rewrite app_cons. simpl. rewrite IH.
    destruct (rsplit c x) as [[h n]|]; [done|].
    destruct (Ascii.eqb a c); by rewrite ?app_nil_l.
Qed.

(** *** [with_suffix] *)

(** Only the final component changes. *)
Lemma with_suffix_under (x y s : string) :
  with_suffix (x +:+ String sep y) s = x +:+ String sep (with_suffix y s).
Proof.
  unfold with_suffix. rewrite rsplit_app_sep.
  destruct (rsplit sep y) as [[h n]|]; [|done].
  by rewrite app_assoc, app_cons.
Qed.

(** The result ends with the new suffix. *)
Lemma with_suffix_ends (p s : string) : exists u, with_suffix p s = u +:+ s.
Proof.
  unfold with_suffix. destruct (rsplit sep p) as [[h n]|].
  - exists (h +:+ String sep (fst (split_suffix n))).
    by rewrite app_assoc, app_cons.
  - by eexists.
Qed.

Lemma split_suffix_mp4 (n : string) :
  n <> "" -> split_suffix (n +:+ ".mp4") = (n, ".mp4").
Proof.
  intros Hn. unfold split_suffix.
  change (n +:+ ".mp4") with (n +:+ String dot "mp4").
  rewrite rsplit_app_sep. simpl. by destruct n.
Qed.

Lemma ends_with_sep_app (x y : string) :
  y <> "" -> ends_with_sep (x +:+ y) = ends_with_sep y.
Proof.
  intros Hy. induction x as [|a x IH]; [done|].
  rewrite app_cons. simpl. rewrite IH.
  destruct (x +:+ y) eqn:E; [|done].
  apply app_eq_nil in E as [_ ?]. done.
Qed.

(** The final component is empty exactly when the text ends with a
    separator. *)
Lemma rsplit_sep_empty_name (p h : string) :
  rsplit sep p = Some (h, "") -> ends_with_sep p = true.
Proof.
  revert h. induction p as [|a r IH]; intros h H; simpl in H; [discriminate|].
  destruct (rsplit sep r) as [[h' n']|] eqn:Hr.
  - injection H as <- ->. simpl. destruct r; [discriminate|]. by eapply IH.
  - destruct (Ascii.eqb a sep) eqn:Ha; [|discriminate].
    injection H as <- ->. done.
Qed.

(** For a path that ends in ['.mp4'] after a non-empty final component,
    [with_suffix('.mp3')] swaps the ending. *)
Lemma with_suffix_mp4_mp3 (x : string) :
  x <> "" -> ends_with_sep x = false ->
  with_suffix (x +:+ ".mp4") ".mp3" = x +:+ ".mp3".
Proof.
  intros Hx Hsep. unfold with_suffix.
  rewrite (rsplit_app_free sep x ".mp4") by reflexivity.
  destruct (rsplit sep x) as [[h n]|] eqn:Hr.
  - assert (Hn : n <> "").
    { intros ->. apply rsplit_sep_empty_name in Hr. congruence. }
    rewrite split_suffix_mp4 by done. simpl.
    apply rsplit_Some in Hr as [-> _]. by rewrite app_assoc, app_cons.
  - by rewrite split_suffix_mp4.
Qed.

End PathLemmas.

(** ** Reasoning about pieces of the program *)

Section Keeps.

Context (Pev : event -> Prop) (Qfs : relation (gmap string node))
        (Qfn : relation (option string)).
Context `{!PreOrder Qfs} `{!PreOrder Qfn}.

Local Abbreviation R := (step_rel Pev Qfs Qfn).

Global Instance step_rel_preorder : PreOrder R.
Proof.
  split.
  - intros st. split; [|reflexivity..].
    exists []. by rewrite app_nil_r.
  - intros s1 s2 s3 [(e1 & H1 & F1) Hfs1 Hfn1] [(e2 & H2 & F2) Hfs2 Hfn2].
    split; [|by etrans..].
    exists (e1 ++ e2). rewrite H2, H1, <- (assoc_L (++)). split; [done|].
    by apply Forall_app.
Qed.

Lemma keeps_ret {A} (a : A) : keeps R (ret a).
Proof. intros st. reflexivity. Qed.

Lemma keeps_raise {A} (e : exn) : keeps R (@raise A e).
Proof. intros st. reflexivity. Qed.

Lemma keeps_lift {A} (r : result A) : keeps R (lift r).
Proof. intros st. reflexivity. Qed.

Lemma keeps_read {A} (f : state -> result A) : keeps R (fun st => (f st, st)).
Proof. intros st. reflexivity. Qed.

Lemma keeps_path_is_dir (p : string) : keeps R (path_is_dir p).
Proof. intros st. reflexivity. Qed.

Lemma keeps_path_is_file (p : string) : keeps R (path_is_file p).
Proof. intros st. reflexivity. Qed.

Lemma keeps_bind {A B} (m : M A) (k : A -> M B) :
  keeps R m -> (forall a, keeps R (k a)) -> keeps R (bind m k).
Proof.
  intros Hm Hk st. unfold bind. specialize (Hm st).
  destruct (m st) as [[a|e] st1]; simpl in *; [|done].
  etrans; [exact Hm | apply Hk].
Qed.

Lemma keeps_if {A} (b : bool) (m1 m2 : M A) :
  keeps R m1 -> keeps R m2 -> keeps R (if b then m1 else m2).
Proof. by destruct b. Qed.

Lemma keeps_try_except {A} (m : M A) (h : exn -> option (M A)) :
  keeps R m -> (forall e k, h e = Some k -> keeps R k) -> keeps R (try_except m h).
Proof.
  intros Hm Hh st. unfold try_except. specialize (Hm st).
  destruct (m st) as [[a|e] st1]; simpl in *; [done|].
  destruct (h e) as [k|] eqn:He; [|done].
  etrans; [exact Hm | by eapply Hh].
Qed.

Lemma keeps_for_each {A} (l : list A) (body : A -> M unit) :
  (forall x, x ∈ l -> keeps R (body x)) -> keeps R (for_each l body).
Proof.
  induction l as [|x l IH]; intros H; simpl.
  - apply keeps_ret.
  - apply keeps_bind; [apply H; left|].
    intros _. apply IH. intros y Hy. apply H. by right.
Qed.

Lemma keeps_emit (e : event) : Pev e -> keeps R (emit e).
Proof.
  intros He st. split; simpl; [|reflexivity..].
  exists [e]. split; [done|]. by apply Forall_singleton.
Qed.

Lemma keeps_print (msg : string) : Pev (EPrint msg) -> keeps R (print msg).
Proof. apply keeps_emit. Qed.

Lemma keeps_put_fs (m' : gmap string node) (st : state) :
  Qfs (fs st) m' -> R st (snd (put_fs m' st)).
Proof.
  intros H. split; simpl; [|done|reflexivity].
  exists []. by rewrite app_nil_r.
Qed.

Lemma keeps_set_filename (f : string) :
  (forall o, Qfn o (Some f)) -> keeps R (set_filename f).
Proof.
  intros H st. split; simpl; [|reflexivity|done].
  exists []. by rewrite app_nil_r.
Qed.

Lemma keeps_get_filename : keeps R get_filename.
Proof. intros st. unfold get_filename. destruct (filename st); reflexivity. Qed.

Lemma keeps_mkdir (p : string) :
  Pev (EMkdir p) ->
  (forall m, m !! p = None -> Qfs m (<[p := Dir]> m)) ->
  keeps R (mkdir p).
Proof.
  intros He Hq. apply keeps_bind; [by apply keeps_emit|].
  intros _ st. destruct (fs st !! p) eqn:E; [reflexivity|].
  destruct (parent_is_dir (fs st) p); [|destruct (under_file (fs st) p); reflexivity].
  apply keeps_put_fs. by apply Hq.
Qed.

Lemma keeps_unlink (missing_ok : bool) (p : string) :
  Pev (EUnlink p) ->
  (forall m, m !! p = Some File -> Qfs m (delete p m)) ->
  keeps R (unlink missing_ok p).
Proof.
  intros He Hq. apply keeps_bind; [by apply keeps_emit|].
  intros _ st. destruct (fs st !! p) as [[]|] eqn:E.
  - apply keeps_put_fs. by apply Hq.
  - reflexivity.
  - destruct (under_file (fs st) p), missing_ok; reflexivity.
Qed.

Lemma keeps_create_file (p : string) :
  (forall m, m !! p <> Some Dir -> Qfs m (<[p := File]> m)) ->
  keeps R (create_file p).
Proof.
  intros Hq st. unfold create_file.
  destruct (fs st !! p) as [[]|] eqn:E; [|reflexivity|];
    (destruct (parent_is_dir (fs st) p);
       [|destruct (under_file (fs st) p); reflexivity]);
    apply keeps_put_fs; apply Hq; congruence.
Qed.

Lemma keeps_ask {A} (e : event) (answer : list event -> result A) :
  Pev e -> keeps R (ask e answer).
Proof.
  intros He. apply keeps_bind; [by apply keeps_emit|].
  intros _. apply (keeps_read (fun st => answer (trace st))).
Qed.

Lemma keeps_perform_io (p : string) (o : io_outcome) :
  (forall m, m !! p <> Some Dir -> Qfs m (<[p := File]> m)) ->
  keeps R (perform_io p o).
Proof.
  intros Hq. destruct o as [|partial e]; simpl.
  - by apply keeps_create_file.
  - apply keeps_bind; [|intros; apply keeps_raise].
    apply keeps_if; [|apply keeps_ret].
    apply keeps_try_except; [by apply keeps_create_file|].
    intros e' k [= <-]. apply keeps_ret.
Qed.

Lemma keeps_item0 {A} (l : list A) : keeps R (item0 l).
Proof. destruct l; [apply keeps_raise | apply keeps_ret]. Qed.

Lemma keeps_stream_filesize (audio_stream : option Stream) :
  keeps R (stream_filesize audio_stream).
Proof. destruct audio_stream; [apply keeps_lift | apply keeps_raise]. Qed.

Lemma keeps_Stream_download (audio_stream : option Stream)
    (output_path fname : string) (timeout : Z) :
  Pev (EDownload output_path fname timeout) ->
  (forall m, m !! (output_path +:+ "/" +:+ fname) <> Some Dir ->
             Qfs m (<[output_path +:+ "/" +:+ fname := File]> m)) ->
  keeps R (Stream_download audio_stream output_path fname timeout).
Proof.
  intros He Hq. apply keeps_bind; [by apply keeps_emit|]. intros _.
  destruct audio_stream; [by apply keeps_perform_io | apply keeps_raise].
Qed.

Lemma keeps_write_audiofile (W : World) (output_path : string) :
  Pev (EWriteAudiofile output_path) ->
  (forall m, m !! output_path <> Some Dir -> Qfs m (<[output_path := File]> m)) ->
  keeps R (write_audiofile W output_path).
Proof.
  intros He Hq. apply keeps_bind; [by apply keeps_emit|]. intros _ st.
  by apply keeps_perform_io.
Qed.

End Keeps.

Global Instance fs_step_preorder (dir_path inter out : string) :
  PreOrder (fs_step dir_path inter out).
Proof.
  split.
  - intros m p. by left.
  - intros m1 m2 m3 H12 H23 p. specialize (H12 p). specialize (H23 p).
    destruct H12 as [E1|[(? & A1 & B1)|[(? & A1)|(? & A1 & B1)]]];
    destruct H23 as [E2|[(? & A2 & B2)|[(? & A2)|(? & A2 & B2)]]];
      try (left; congruence);
      try (right; left; split_and!; congruence);
      try (right; right; left; split_and!; congruence);
      try (right; right; right; split_and!; congruence).
Qed.

Global Instance fn_step_preorder (fname : string) : PreOrder (fn_step fname).
Proof.
  split.
  - intros f. by left.
  - intros f1 f2 f3 [->| ->] [->| ->]; unfold fn_step; auto.
Qed.

Lemma fs_step_insert_dir (dir_path inter out : string) (m : gmap string node) :
  m !! dir_path = None -> fs_step dir_path inter out m (<[dir_path := Dir]> m).
Proof.
  intros Hm p. rewrite lookup_insert. case_decide as E; [|by left].
  subst p. right; left. done.
Qed.

Lemma fs_step_insert_inter (dir_path inter out : string) (m : gmap string node) :
  m !! inter <> Some Dir -> fs_step dir_path inter out m (<[inter := File]> m).
Proof.
  intros Hm p. rewrite lookup_insert. case_decide as E; [|by left].
  subst p. right; right; left. done.
Qed.

Lemma fs_step_insert_out (dir_path inter out : string) (m : gmap string node) :
  m !! out <> Some Dir -> fs_step dir_path inter out m (<[out := File]> m).
Proof.
  intros Hm p. rewrite lookup_insert. case_decide as E; [|by left].
  subst p. right; right; right. done.
Qed.

Lemma fs_step_delete_inter (dir_path inter out : string) (m : gmap string node) :
  m !! inter = Some File -> fs_step dir_path inter out m (delete inter m).
Proof.
  intros Hm p. rewrite lookup_delete. case_decide as E; [|by left].
  subst p. right; right; left. rewrite Hm. done.
Qed.

Lemma fs_step_dir_kept (dir_path inter out : string) (m m' : gmap string node) (p : string) :
  fs_step dir_path inter out m m' -> m !! p = Some Dir -> m' !! p = Some Dir.
Proof.
  intros H Hp. destruct (H p) as [E|[(_ & A & _)|[(_ & A)|(_ & A & _)]]]; congruence.
Qed.

Lemma fs_step_file_kept (dir_path inter out : string) (m m' : gmap string node) (p : string) :
  fs_step dir_path inter out m m' -> p <> inter ->
  m !! p = Some File -> m' !! p = Some File.
Proof.
  intros H Hne Hp. destruct (H p) as [E|[(_ & A & _)|[(? & _)|(_ & _ & B)]]]; congruence.
Qed.

Lemma fs_step_elsewhere (dir_path inter out : string) (m m' : gmap string node) (p : string) :
  fs_step dir_path inter out m m' ->
  p <> dir_path -> p <> inter -> p <> out -> m' !! p = m !! p.
Proof.
  intros H ???. destruct (H p) as [E|[(? & _)|[(? & _)|(? & _)]]]; congruence.
Qed.


(** Apply a rule about [keeps], finding the preorders it needs. *)
Ltac kapply lem := apply lem; try (solve [typeclasses eauto]).


(** ** Running the program one statement at a time *)

Global Arguments bind : simpl never.
Global Arguments print : simpl never.
Global Arguments emit : simpl never.
Global Arguments mkdir : simpl never.
Global Arguments unlink : simpl never.
Global Arguments create_file : simpl never.
Global Arguments perform_io : simpl never.
Global Arguments try_except : simpl never.

Section Step.

Context {A B : Type}.
Implicit Types (k : A -> M B) (st : state).

Lemma bind_ret (a : A) k st : bind (ret a) k st = k a st.
Proof. reflexivity. Qed.

Lemma bind_raise (e : exn) k st : bind (raise e) k st = (Raise e, st).
Proof. reflexivity. Qed.

Lemma bind_lift (r : result A) k st :
  bind (lift r) k st = match r with Ok a => k a st | Raise e => (Raise e, st) end.
Proof. unfold bind, lift. by destruct r. Qed.

Lemma bind_if (b : bool) (m1 m2 : M A) k st :
  bind (if b then m1 else m2) k st = if b then bind m1 k st else bind m2 k st.
Proof. by destruct b. Qed.

Lemma bind_item0 (l : list A) k st :
  bind (item0 l) k st = match l with x :: _ => k x st | [] => (Raise IndexError, st) end.
Proof. by destruct l. Qed.

Lemma bind_ask (e : event) (answer : list event -> result A) k st :
  bind (ask e answer) k st =
  let st1 := mkState (fs st) (filename st) (trace st ++ [e]) in
  match answer (trace st ++ [e]) with
  | Ok a => k a st1
  | Raise x => (Raise x, st1)
  end.
Proof. unfold ask, bind, emit. simpl. by destruct (answer _). Qed.

End Step.

Section StepUnit.

Context {B : Type}.
Implicit Types (k : unit -> M B) (st : state).

Lemma bind_assoc {A C} (m : M A) (k1 : A -> M C) (k2 : C -> M B) st :
  bind (bind m k1) k2 st = bind m (fun a => bind (k1 a) k2) st.
Proof. unfold bind. by destruct (m st) as [[a|e] st1]. Qed.

Lemma bind_set_filename (f : string) k st :
  bind (set_filename f) k st = k tt (mkState (fs st) (Some f) (trace st)).
Proof. reflexivity. Qed.

Lemma bind_emit (e : event) k st :
  bind (emit e) k st = k tt (mkState (fs st) (filename st) (trace st ++ [e])).
Proof. reflexivity. Qed.

Lemma bind_print (msg : string) k st :
  bind (print msg) k st = k tt (mkState (fs st) (filename st) (trace st ++ [EPrint msg])).
Proof. reflexivity. Qed.

Lemma bind_path_is_dir (p : string) (k : bool -> M B) st :
  bind (path_is_dir p) k st = k (is_dir (fs st) p) st.
Proof. reflexivity. Qed.

Lemma bind_path_is_file (p : string) (k : bool -> M B) st :
  bind (path_is_file p) k st = k (is_file (fs st) p) st.
Proof. reflexivity. Qed.

Lemma bind_mkdir_ok (p : string) k st :
  fs st !! p = None -> parent_is_dir (fs st) p = true ->
  bind (mkdir p) k st
  = k tt (mkState (<[p := Dir]> (fs st)) (filename st) (trace st ++ [EMkdir p])).
Proof.
  intros Hn Hp. unfold mkdir. rewrite bind_assoc, bind_emit.
  unfold bind. simpl. by rewrite Hn, Hp.
Qed.

End StepUnit.

(** *** The trace only grows *)

Global Instance any_fs_preorder : PreOrder any_fs.
Proof. by split. Qed.

Global Instance any_fn_preorder : PreOrder any_fn.
Proof. by split. Qed.

Lemma grows_trace (st st' : state) :
  grows st st' -> exists evs, trace st' = trace st ++ evs.
Proof. intros [(evs & H & _) _ _]. eauto. Qed.

(** Prove [keeps grows m] for a piece [m] of the program. *)
Ltac keeps_triv :=
  repeat first
    [ kapply keeps_ret | kapply keeps_raise | kapply keeps_lift
    | kapply keeps_path_is_dir | kapply keeps_path_is_file
    | kapply keeps_item0 | kapply keeps_stream_filesize
    | kapply keeps_get_filename
    | kapply keeps_print; [exact I]
    | kapply keeps_mkdir; [exact I | intros; exact I]
    | kapply keeps_unlink; [exact I | intros; exact I]
    | kapply keeps_Stream_download; [exact I | intros; exact I]
    | kapply keeps_write_audiofile; [exact I | intros; exact I]
    | kapply keeps_perform_io; [intros; exact I]
    | kapply keeps_create_file; [intros; exact I]
    | kapply keeps_set_filename; [intros; exact I]
    | kapply keeps_ask; [exact I]
    | kapply keeps_emit; [exact I]
    | kapply keeps_if
    | kapply keeps_bind; [|intros ?] ].

Ltac keeps_grows := unfold grows; keeps_triv.

(** After a collaborator call [e], whatever follows, the call is in the
    trace. *)
Lemma ask_then_in_trace {A B} (e : event) (answer : list event -> result A)
    (k : A -> M B) (st0 st : state) (pre : list event) :
  (forall a, keeps grows (k a)) ->
  trace st = trace st0 ++ pre ->
  e ∈ new_events st0 (snd (bind (ask e answer) k st)).
Proof.
  intros Hk Hpre. rewrite bind_ask. simpl.
  destruct (answer _) as [a|x]; simpl.
  - destruct (grows_trace _ _ (Hk a (mkState (fs st) (filename st) (trace st ++ [e]))))
      as [evs Hevs].
    unfold new_events. rewrite Hevs. simpl. rewrite Hpre.
    rewrite <- !(assoc_L (++)). rewrite drop_app_length. set_solver.
  - unfold new_events. simpl. rewrite Hpre.
    rewrite <- !(assoc_L (++)). rewrite drop_app_length. set_solver.
Qed.

(** Once [e] is in the trace, it stays, whatever follows. *)
Lemma in_trace_after {A} (m : M A) (e : event) (st0 st : state) (pre : list event) :
  keeps grows m ->
  trace st = trace st0 ++ pre ->
  e ∈ pre ->
  e ∈ new_events st0 (snd (m st)).
Proof.
  intros Hm Hpre He.
  destruct (grows_trace _ _ (Hm st)) as [evs Hevs].
  unfold new_events. rewrite Hevs, Hpre.
  rewrite <- !(assoc_L (++)). rewrite drop_app_length. set_solver.
Qed.

(** *** Reading a successful run backwards *)

Lemma bind_Ok_inv {A B} (m : M A) (k : A -> M B) (st st' : state) (b : B) :
  bind m k st = (Ok b, st') ->
  exists a st1, m st = (Ok a, st1) /\ k a st1 = (Ok b, st').
Proof.
  unfold bind. destruct (m st) as [[a|e] st1]; [eauto | discriminate].
Qed.

Lemma create_file_Ok (p : string) (st st' : state) :
  create_file p st = (Ok tt, st') ->
  fs st' = <[p := File]> (fs st) /\ trace st' = trace st /\ filename st' = filename st.
Proof.
  unfold create_file.
  destruct (fs st !! p) as [[]|]; try discriminate;
    (destruct (parent_is_dir (fs st) p);
       [|destruct (under_file (fs st) p); discriminate]);
    intros [= <-]; done.
Qed.

Lemma perform_io_Ok (p : string) (o : io_outcome) (st st' : state) :
  perform_io p o st = (Ok tt, st') -> fs st' = <[p := File]> (fs st).
Proof.
  unfold perform_io. destruct o as [|partial e].
  - by intros [? _]%create_file_Ok.
  - intros (? & ? & _ & [=])%bind_Ok_inv.
Qed.

Lemma write_audiofile_Ok (W : World) (p : string) (st st' : state) :
  write_audiofile W p st = (Ok tt, st') -> fs st' = <[p := File]> (fs st).
Proof.
  unfold write_audiofile.
  intros ([] & st1 & [= <-] & H)%bind_Ok_inv.
  by apply perform_io_Ok in H.
Qed.

Lemma ask_Ok {A} (e : event) (answer : list event -> result A) (st st' : state) (a : A) :
  ask e answer st = (Ok a, st') -> fs st' = fs st.
Proof.
  unfold ask. intros ([] & st1 & [= <-] & H)%bind_Ok_inv.
  simpl in H. destruct (answer _); by simplify_eq.
Qed.

Lemma unlink_Ok (p : string) (st st' : state) :
  unlink false p st = (Ok tt, st') ->
  fs st !! p = Some File /\ fs st' = delete p (fs st).
Proof.
  unfold unlink. intros ([] & st1 & [= <-] & H)%bind_Ok_inv.
  simpl in H. destruct (fs st !! p) as [[]|] eqn:E; simpl in H; try discriminate.
  - unfold put_fs in H. injection H as <-. done.
  - destruct (under_file (fs st) p); discriminate.
Qed.

(** Split a successful run into its statements; the last one is left in
    [H]. *)
Ltac inv_ok H :=
  repeat match type of H with
  | bind _ _ _ = (Ok _, _) =>
      let Hhead := fresh "Hhead" in
      apply bind_Ok_inv in H as (? & ? & Hhead & H); cbv beta in H
  | (if ?b then _ else _) _ = (Ok _, _) => destruct b eqn:?
  | raise _ _ = (Ok _, _) => discriminate H
  end.

(** Run the statements at the head of the goal for as long as their
    outcome is known. *)
Ltac steps :=
  cbn [fs filename trace result_of];
  repeat (first
    [ rewrite bind_set_filename | rewrite bind_path_is_dir
    | rewrite bind_path_is_file | rewrite bind_print | rewrite bind_emit
    | rewrite bind_ret | rewrite bind_raise | rewrite bind_assoc
    | rewrite bind_item0 | rewrite bind_lift | rewrite bind_ask
    | rewrite bind_if ];
    cbn [fs filename trace result_of]).

(** ** Which exceptions a piece of the program can raise *)

Section RaisesOnly.

Context (E : exn -> Prop) (Hbuiltin : forall b : builtin_exn, E b).

Lemma raises_ret {A} (a : A) : raises_only E (ret a).
Proof. intros st e [=]. Qed.

Lemma raises_raise {A} (e : exn) : E e -> raises_only E (@raise A e).
Proof. intros He st e' [= <-]. done. Qed.

Lemma raises_answer {A} (x : answer A) : raises_only E (lift (result_of x)).
Proof. intros st e. destruct x; simpl; intros [= <-]. apply Hbuiltin. Qed.

Lemma raises_lift {A} (r : result A) :
  (forall e, r = Raise e -> E e) -> raises_only E (lift r).
Proof. intros H st e. simpl. apply H. Qed.

Lemma raises_bind {A B} (m : M A) (k : A -> M B) :
  raises_only E m -> (forall a, raises_only E (k a)) -> raises_only E (bind m k).
Proof.
  intros Hm Hk st e. unfold bind. specialize (Hm st).
  destruct (m st) as [[a|e'] st1]; simpl in *.
  - apply Hk.
  - intros [= <-]. by apply Hm.
Qed.

Lemma raises_if {A} (b : bool) (m1 m2 : M A) :
  raises_only E m1 -> raises_only E m2 -> raises_only E (if b then m1 else m2).
Proof. by destruct b. Qed.

Lemma raises_emit (e : event) : raises_only E (emit e).
Proof. intros st x [=]. Qed.

Lemma raises_print (msg : string) : raises_only E (print msg).
Proof. apply raises_emit. Qed.

Lemma raises_ask {A} (e : event) (f : list event -> answer A) :
  raises_only E (ask e (fun h => result_of (f h))).
Proof.
  apply raises_bind; [apply raises_emit|]. intros _ st x. simpl.
  destruct (f _); simpl; intros [= <-]. apply Hbuiltin.
Qed.

Lemma raises_of_failure (e : event) (f : list event -> option builtin_exn) :
  raises_only E (ask e (fun h => of_failure (f h))).
Proof.
  apply raises_bind; [apply raises_emit|]. intros _ st x. simpl.
  destruct (f _); simpl; intros [= <-]. apply Hbuiltin.
Qed.

Lemma raises_item0 {A} (l : list A) : raises_only E (item0 l).
Proof. destruct l; [apply raises_raise, Hbuiltin | apply raises_ret]. Qed.

Lemma raises_stream_filesize (s : option Stream) : raises_only E (stream_filesize s).
Proof. destruct s; [apply raises_answer | apply raises_raise, Hbuiltin]. Qed.

Lemma raises_file_size_mb (n : Z) : raises_only E (lift (file_size_mb n)).
Proof.
  apply raises_lift. unfold file_size_mb.
  destruct (PyFloat.of_int n); intros e [= <-]. apply Hbuiltin.
Qed.

Lemma raises_create_file (p : string) : raises_only E (create_file p).
Proof.
  intros st e. unfold create_file.
  destruct (fs st !! p) as [[]|]; simpl;
    try destruct (parent_is_dir _ _); try destruct (under_file _ _);
    simpl; intros [= <-]; apply Hbuiltin.
Qed.

Lemma raises_perform_io (p : string) (o : io_outcome) : raises_only E (perform_io p o).
Proof.
  destruct o as [|partial e]; unfold perform_io.
  - apply raises_create_file.
  - apply raises_bind; [|intros; apply raises_raise, Hbuiltin].
    destruct partial; [|apply raises_ret].
    intros st x. unfold try_except.
    destruct (create_file p st) as [[]]; simpl; intros [=].
Qed.

Lemma raises_Stream_download (s : option Stream) (output_path fname : string) (timeout : Z) :
  raises_only E (Stream_download s output_path fname timeout).
Proof.
  apply raises_bind; [apply raises_emit|]. intros _.
  destruct s; [apply raises_perform_io | apply raises_raise, Hbuiltin].
Qed.

Lemma raises_write_audiofile (W : World) (p : string) :
  raises_only E (write_audiofile W p).
Proof.
  apply raises_bind; [apply raises_emit|]. intros _ st. apply raises_perform_io.
Qed.

Lemma raises_unlink (missing_ok : bool) (p : string) : raises_only E (unlink missing_ok p).
Proof.
  apply raises_bind; [apply raises_emit|]. intros _ st e.
  destruct (fs st !! p) as [[]|]; simpl;
    try destruct (under_file _ _); try destruct missing_ok; simpl;
    intros [= <-]; apply Hbuiltin.
Qed.

Lemma raises_mkdir (p : string) : raises_only E (mkdir p).
Proof.
  apply raises_bind; [apply raises_emit|]. intros _ st e.
  destruct (fs st !! p); simpl; try destruct (parent_is_dir _ _);
    try destruct (under_file _ _); simpl;
    intros [= <-]; apply Hbuiltin.
Qed.

End RaisesOnly.

(** Prove [raises_only E m] for a piece [m] of [download], given that the
    builtin exceptions are in [E]. *)
Ltac raises_auto HB :=
  repeat first
    [ apply raises_ret
    | apply raises_answer; exact HB
    | apply raises_file_size_mb; exact HB
    | apply raises_item0; exact HB
    | apply raises_stream_filesize; exact HB
    | apply raises_print | apply raises_emit
    | apply raises_mkdir; exact HB
    | apply raises_unlink; exact HB
    | apply raises_Stream_download; exact HB
    | apply raises_write_audiofile; exact HB
    | apply raises_ask; exact HB
    | apply raises_of_failure; exact HB
    | apply raises_raise; first [exact I | apply HB]
    | apply raises_if
    | apply raises_bind; [|intros ?] ].

(** ** The file system *)

Module FsLemmas.
Import PathLib PathLemmas.

Lemma ancestors_app (q r : string) : q ∈ ancestors (q +:+ String sep r).
Proof.
  induction q as [|a q IH].
  - rewrite app_nil_l. simpl. apply list_elem_of_here.
  - rewrite app_cons. simpl. apply elem_of_app. right.
    apply list_elem_of_fmap. eauto.
Qed.

Lemma wf_fs_ancestors (m : gmap string node) (p q : string) (x : node) :
  wf_fs m = true -> m !! p = Some x -> q ∈ ancestors p -> dir_or_root m q = true.
Proof.
  unfold wf_fs. intros Hwf Hp Hq.
  rewrite forallb_forall in Hwf.
  specialize (Hwf (p, x)). simpl in Hwf.
  assert (Hin : In (p, x) (map_to_list m)).
  { apply list_elem_of_In. by apply elem_of_map_to_list. }
  specialize (Hwf Hin). rewrite forallb_forall in Hwf.
  apply Hwf. by apply list_elem_of_In.
Qed.

(** In a tree-shaped file system, what exists under [q] makes [q] a
    directory. *)
Lemma wf_fs_parent_dir (m : gmap string node) (q r : string) (x : node) :
  wf_fs m = true -> q <> "" -> m !! (q +:+ String sep r) = Some x -> is_dir m q = true.
Proof.
  intros Hwf Hq Hp.
  pose proof (wf_fs_ancestors m _ q x Hwf Hp (ancestors_app q r)) as H.
  by destruct q.
Qed.

Lemma is_file_Some (m : gmap string node) (p : string) :
  is_file m p = true <-> m !! p = Some File.
Proof. unfold is_file. destruct (m !! p) as [[]|]; split; congruence. Qed.

Lemma is_dir_Some (m : gmap string node) (p : string) :
  is_dir m p = true <-> m !! p = Some Dir.
Proof. unfold is_dir. destruct (m !! p) as [[]|]; split; congruence. Qed.

Lemma is_file_insert_dir (m : gmap string node) (p q : string) :
  is_file m p = false -> is_file (<[q := Dir]> m) p = false.
Proof.
  unfold is_file. intros H. rewrite lookup_insert. by case_decide.
Qed.

End FsLemmas.

(** ** The per-track operation *)

Global Arguments seconds_to_mins : simpl never.
Global Arguments file_size_mb : simpl never.
Global Arguments float_lt_int : simpl never.
Global Arguments effective_search_term : simpl never.
Global Arguments PathLib.with_suffix : simpl never.
Global Arguments Z.gtb : simpl never.

Import PathLib PathLemmas FsLemmas.

Lemma sep_app (s : string) : "/" +:+ s = String sep s.
Proof. reflexivity. Qed.

(** [f'{output_path}/{filename}'] with [output_path] the target directory
    is the intermediate path written in one piece. *)
Lemma file_path_eq (DOWNLOAD_PATH artist track_title target_dir : string) :
  (DOWNLOAD_PATH +:+ "/" +:+ target_dir) +:+ "/" +:+ (artist +:+ " - " +:+ track_title +:+ ".mp4")
  = intermediate_path DOWNLOAD_PATH artist track_title target_dir.
Proof. unfold intermediate_path. by rewrite !app_assoc. Qed.

(** The output lies in the target directory. *)
Lemma output_path_under (DOWNLOAD_PATH artist track_title target_dir : string) :
  output_path_of DOWNLOAD_PATH artist track_title target_dir =
  (DOWNLOAD_PATH +:+ "/" +:+ target_dir) +:+
    String sep (with_suffix (artist +:+ " - " +:+ track_title +:+ ".mp4") ".mp3").
Proof.
  unfold output_path_of, intermediate_path.
  rewrite !sep_app, !with_suffix_under. by rewrite app_assoc, app_cons.
Qed.

(** The output path is the literal ['artist - title.mp3'] in the target
    directory, unless the title ends with a separator. *)
Lemma output_path_literal (DOWNLOAD_PATH artist track_title target_dir : string) :
  ends_with_sep track_title = false ->
  output_path_of DOWNLOAD_PATH artist track_title target_dir =
  DOWNLOAD_PATH +:+ "/" +:+ target_dir +:+ "/" +:+ artist +:+ " - " +:+ track_title +:+ ".mp3".
Proof.
  intros Hsep. rewrite output_path_under.
  replace (artist +:+ " - " +:+ track_title +:+ ".mp4")
    with ((artist +:+ " - " +:+ track_title) +:+ ".mp4") by (by rewrite !app_assoc).
  rewrite with_suffix_mp4_mp3.
  - by rewrite <- sep_app, !app_assoc.
  - intros [_ [=]]%app_eq_nil.
  - rewrite ends_with_sep_app by (by destruct track_title).
    destruct track_title as [|c r]; [done|].
    by rewrite ends_with_sep_app.
Qed.

(** The output and the intermediate file of any two requests differ. *)
Lemma output_is_not_intermediate (DOWNLOAD_PATH a t d a' t' d' : string) :
  output_path_of DOWNLOAD_PATH a t d <> intermediate_path DOWNLOAD_PATH a' t' d'.
Proof.
  unfold output_path_of.
  destruct (with_suffix_ends (intermediate_path DOWNLOAD_PATH a t d) ".mp3") as [u ->].
  unfold intermediate_path. rewrite <- !app_assoc. apply mp3_is_not_mp4.
Qed.

(** Goals about the events a run added, once the final trace is explicit. *)
Ltac trace_tac :=
  unfold new_events; cbn [fs filename trace];
  rewrite <- ?(assoc_L (++)); rewrite drop_app_length; simpl;
  unfold no_download_or_transcode;
  first [ by repeat first [apply Forall_nil | apply Forall_cons | split | reflexivity]
        | set_solver ].

Lemma new_events_app (st st' : state) (evs : list event) :
  trace st' = trace st ++ evs -> new_events st st' = evs.
Proof. unfold new_events. intros ->. by rewrite drop_app_length. Qed.

Lemma reaches_search_inv (DOWNLOAD_PATH artist track_title target_dir : string) (st : state) :
  reaches_search DOWNLOAD_PATH artist track_title target_dir st = true ->
  is_file (fs st) (output_path_of DOWNLOAD_PATH artist track_title target_dir) = false
  /\ (is_dir (fs st) (DOWNLOAD_PATH +:+ "/" +:+ target_dir) = true
      \/ (is_dir (fs st) (DOWNLOAD_PATH +:+ "/" +:+ target_dir) = false
          /\ fs st !! (DOWNLOAD_PATH +:+ "/" +:+ target_dir) = None
          /\ parent_is_dir (fs st) (DOWNLOAD_PATH +:+ "/" +:+ target_dir) = true)).
Proof.
  unfold reaches_search, dir_ready.
  intros [Hd Hf%negb_true_iff]%andb_true_iff. split; [done|].
  destruct (is_dir (fs st) _) eqn:E; [by left|right].
  simpl in Hd. apply andb_true_iff in Hd as [Hn%bool_decide_eq_true Hp]. done.
Qed.

(** Run [download] up to the call of the search collaborator, for a request
    that passes the directory and already-downloaded checks. *)
Ltac to_search Hreach :=
  let Hfile := fresh "Hfile" in
  let Hdir := fresh "Hdir" in
  let Hnone := fresh "Hnone" in
  let Hpar := fresh "Hpar" in
  apply reaches_search_inv in Hreach as [Hfile [Hdir|(Hdir & Hnone & Hpar)]];
  unfold output_path_of, intermediate_path in Hfile;
  unfold search_answer, state_at_search in *;
  unfold download, Search, get_audio_only, AudioFileClip, close; cbv zeta;
  rewrite bind_set_filename, bind_path_is_dir; cbn [fs filename trace];
  rewrite Hdir in *;
  [ rewrite bind_ret
  | rewrite bind_assoc, bind_print, bind_mkdir_ok by done ];
  rewrite bind_path_is_file; cbn [fs filename trace] in *;
  rewrite ?Hfile, ?(is_file_insert_dir _ _ _ Hfile);
  rewrite bind_print, bind_ask; cbn [fs filename trace result_of].


(** Prove that a piece of [download] keeps the footprint of the request. *)
Ltac keeps_footprint :=
  repeat first
    [ kapply keeps_ret | kapply keeps_raise | kapply keeps_lift
    | kapply keeps_path_is_dir | kapply keeps_path_is_file
    | kapply keeps_item0 | kapply keeps_stream_filesize
    | kapply keeps_print; constructor
    | kapply keeps_mkdir; [constructor | apply fs_step_insert_dir]
    | kapply keeps_unlink; [constructor | apply fs_step_delete_inter]
    | kapply keeps_Stream_download;
        [constructor | rewrite file_path_eq; apply fs_step_insert_inter]
    | kapply keeps_write_audiofile; [constructor | apply fs_step_insert_out]
    | kapply keeps_set_filename; [intros ?; by right]
    | kapply keeps_ask; constructor
    | kapply keeps_emit; constructor
    | kapply keeps_if
    | kapply keeps_bind; [|intros ?] ].

Section Download.

Context (DOWNLOAD_PATH : string) (W : World).

(** Whatever its outcome, a run of [download] only emits its own events,
    only touches the target directory, the intermediate file and the output
    file, and leaves the global set to its own file name or untouched. *)
Lemma download_footprint (artist track_title target_dir : string)
    (search_term : option string) :
  keeps (step_rel (download_emits DOWNLOAD_PATH artist track_title target_dir search_term)
                  (fs_step (DOWNLOAD_PATH +:+ "/" +:+ target_dir)
                           (intermediate_path DOWNLOAD_PATH artist track_title target_dir)
                           (output_path_of DOWNLOAD_PATH artist track_title target_dir))
                  (fn_step (artist +:+ " - " +:+ track_title +:+ ".mp4")))
        (download DOWNLOAD_PATH W artist track_title target_dir search_term).
Proof.
  unfold download. cbv zeta. rewrite !file_path_eq.
  fold (intermediate_path DOWNLOAD_PATH artist track_title target_dir).
  fold (output_path_of DOWNLOAD_PATH artist track_title target_dir).
  keeps_footprint.
Qed.

(** With the target directory and the output file in place the run stops
    at the already-downloaded check, having set the global and nothing
    else. *)
Lemma download_skips (artist track_title target_dir : string)
    (search_term : option string) (st : state) :
  is_dir (fs st) (DOWNLOAD_PATH +:+ "/" +:+ target_dir) = true ->
  is_file (fs st) (output_path_of DOWNLOAD_PATH artist track_title target_dir) = true ->
  exists msg,
    download DOWNLOAD_PATH W artist track_title target_dir search_term st
      = (Raise (TrackAlreadyDownloaded msg),
         mkState (fs st) (Some (artist +:+ " - " +:+ track_title +:+ ".mp4")) (trace st)).
Proof.
  intros Hdir Hfile.
  unfold output_path_of, intermediate_path in Hfile.
  unfold download. cbv zeta.
  rewrite bind_set_filename, bind_path_is_dir. cbn [fs filename trace].
  rewrite Hdir, bind_ret, bind_path_is_file. cbn [fs filename trace].
  rewrite Hfile. unfold raise. eauto.
Qed.

Lemma not_skip_builtin (b : builtin_exn) : not_skip b.
Proof. exact I. Qed.

(** The statements after the already-downloaded check do not raise
    [TrackAlreadyDownloaded]. *)
Ltac not_from_rest Hrun :=
  match type of Hrun with
  | ?m ?s = (Raise ?e, _) =>
      let H := fresh in
      assert (H : raises_only not_skip m) by (raises_auto not_skip_builtin);
      specialize (H s e); rewrite Hrun in H; exact (H eq_refl)
  end.

(** [TrackAlreadyDownloaded] comes from the check only: the output file is
    there, and no collaborator was called. *)
Lemma download_skip_inv (artist track_title target_dir : string)
    (search_term : option string) (st st' : state) (msg : string) :
  download DOWNLOAD_PATH W artist track_title target_dir search_term st
    = (Raise (TrackAlreadyDownloaded msg), st') ->
  is_file (fs st') (output_path_of DOWNLOAD_PATH artist track_title target_dir) = true
  /\ Forall no_collaborator_call (new_events st st').
Proof.
  unfold output_path_of, intermediate_path.
  unfold download. cbv zeta.
  rewrite bind_set_filename, bind_path_is_dir. cbn [fs filename trace].
  destruct (is_dir (fs st) _) eqn:Hd.
  - rewrite bind_ret, bind_path_is_file. cbn [fs filename trace].
    destruct (is_file (fs st) _) eqn:Hf.
    + intros [= <- <-]. split; [done|].
      unfold new_events. cbn [trace]. rewrite drop_all. constructor.
    + intros Hrun. exfalso. not_from_rest Hrun.
  - rewrite bind_assoc, bind_print. unfold mkdir at 1.
    rewrite bind_assoc, bind_emit. cbn [fs filename trace].
    unfold bind at 1. cbn [fs filename trace].
    destruct (fs st !! _) eqn:Hlook; [intros [=]|].
    destruct (parent_is_dir (fs st) _); [|destruct (under_file _ _); intros [=]].
    cbn [put_fs fs filename trace].
    rewrite bind_path_is_file. cbn [fs filename trace].
    destruct (is_file (<[_ := Dir]> (fs st)) _) eqn:Hf.
    + intros [= <- <-]. split; [done|].
      unfold new_events. cbn [trace]. rewrite <- (assoc_L (++)), drop_app_length.
      by repeat constructor.
    + intros Hrun. exfalso. not_from_rest Hrun.
Qed.

(** A run that succeeds did not find the output file. *)
Lemma download_ok_fresh (artist track_title target_dir : string)
    (search_term : option string) (st st' : state) :
  download DOWNLOAD_PATH W artist track_title target_dir search_term st = (Ok tt, st') ->
  is_file (fs st) (output_path_of DOWNLOAD_PATH artist track_title target_dir) = false.
Proof.
  unfold output_path_of, intermediate_path.
  unfold download. cbv zeta.
  rewrite bind_set_filename, bind_path_is_dir. cbn [fs filename trace].
  destruct (is_dir (fs st) _) eqn:Hd.
  - rewrite bind_ret, bind_path_is_file. cbn [fs filename trace].
    destruct (is_file (fs st) _) eqn:Hf; [intros [=] | done].
  - rewrite bind_assoc, bind_print. unfold mkdir at 1.
    rewrite bind_assoc, bind_emit. cbn [fs filename trace].
    unfold bind at 1. cbn [fs filename trace].
    destruct (fs st !! _) eqn:Hlook; [intros [=]|].
    destruct (parent_is_dir (fs st) _); [|destruct (under_file _ _); intros [=]].
    cbn [put_fs fs filename trace].
    rewrite bind_path_is_file. cbn [fs filename trace].
    destruct (is_file (<[_ := Dir]> (fs st)) _) eqn:Hf; [intros [=]|].
    intros _. revert Hf. unfold is_file. rewrite lookup_insert.
    case_decide as E; [|done]. rewrite <- E, Hlook. done.
Qed.

(** C1. A track request whose transcoded output (target directory /
    'artist - title' with the audio extension) already exists as a file
    raises [TrackAlreadyDownloaded]; the run records no event at all, so no
    search, download or transcode call, and leaves the file system as it
    was. *)
Theorem C1_already_acquired (artist track_title target_dir : string)
    (search_term : option string) (st : state) :
  wf_fs (fs st) = true ->
  is_file (fs st) (output_path_of DOWNLOAD_PATH artist track_title target_dir) = true ->
  exists msg st',
    download DOWNLOAD_PATH W artist track_title target_dir search_term st
      = (Raise (TrackAlreadyDownloaded msg), st')
    /\ trace st' = trace st
    /\ fs st' = fs st.
Proof.
  intros Hwf Hfile.
  assert (Hdir : is_dir (fs st) (DOWNLOAD_PATH +:+ "/" +:+ target_dir) = true).
  { apply is_file_Some in Hfile. rewrite output_path_under in Hfile.
    eapply wf_fs_parent_dir; [done| |done].
    intros [_ H]%app_eq_nil. discriminate. }
  unfold output_path_of, intermediate_path in Hfile.
  unfold download, bind, set_filename, path_is_dir, path_is_file, ret, raise.
  simpl. rewrite Hdir. simpl. rewrite Hfile. simpl.
  eauto.
Qed.

(** C3. When the top search result is longer than the upper threshold
    (900 seconds), the request is rejected with [TrackObtainError] and its
    'too long' message before any download or transcode call; a result of
    exactly the threshold passes the duration check: the run goes on to ask
    for the audio stream. *)
Theorem C3_too_long (artist track_title target_dir : string)
    (search_term : option string) (st : state)
    (yt : YouTube) (others : list YouTube) (title : string) (track_length : Z) :
  reaches_search DOWNLOAD_PATH artist track_title target_dir st = true ->
  search_answer DOWNLOAD_PATH W artist track_title target_dir search_term st
    = Returns (yt :: others) ->
  yt_title yt = Returns title ->
  yt_length yt = Returns track_length ->
  let '(r, st') := download DOWNLOAD_PATH W artist track_title target_dir search_term st in
  (track_length > TRACKLENGTH_UPPER_THRESHOLD ->
     r = Raise (TrackObtainError "Unexpectedly long track. Skipping...")
     /\ Forall no_download_or_transcode (new_events st st'))
  /\ (track_length = TRACKLENGTH_UPPER_THRESHOLD ->
       EGetAudioOnly "webm" ∈ new_events st st').
Proof.
  intros Hreach Hsearch Htitle Hlen.
  destruct (download _ _ _ _ _ _ _) as [r st'] eqn:Hrun. revert Hrun.
  to_search Hreach.
  all: rewrite Hsearch; steps; rewrite Htitle; steps; rewrite Hlen; steps.
  all: destruct (track_length >? TRACKLENGTH_UPPER_THRESHOLD) eqn:Hgt.
  all: try (intros [= <- <-]; split;
            [ intros _; split; [reflexivity | trace_tac]
            | intros ->; discriminate Hgt ]).
  all: rewrite Z.gtb_ltb in Hgt; apply Z.ltb_ge in Hgt.
  all: intros Hrun; split; [intros Hlong; lia | intros _].
  all: match type of Hrun with
       | bind (ask ?e ?f) ?k ?s = _ =>
           pose proof (ask_then_in_trace e f k st s) as Hin
       end.
  all: rewrite Hrun in Hin; eapply Hin; [intros; keeps_grows | cbn [trace]].
  all: by rewrite <- ?(assoc_L (++)).
Qed.

(** C4. The approximate file size is [round(filesize * 1e-6, 2)]; when it
    is strictly below the lower threshold (2) the request is rejected with
    [TrackObtainError] and its 'too small' message before any download or
    transcode call; when it is not below the threshold, in particular when
    it equals it, the run goes on to call the download collaborator. *)
Theorem C4_too_small (artist track_title target_dir : string)
    (search_term : option string) (st : state)
    (yt : YouTube) (others : list YouTube) (title : string) (track_length : Z)
    (audio_stream : Stream) (size_bytes : Z) :
  reaches_search DOWNLOAD_PATH artist track_title target_dir st = true ->
  search_answer DOWNLOAD_PATH W artist track_title target_dir search_term st
    = Returns (yt :: others) ->
  yt_title yt = Returns title ->
  yt_length yt = Returns track_length ->
  track_length <= TRACKLENGTH_UPPER_THRESHOLD ->
  yt_get_audio_only yt = Returns (Some audio_stream) ->
  filesize audio_stream = Returns size_bytes ->
  forall file_size,
  PyFloat.of_int size_bytes = Some file_size ->
  let approx := PyFloat.round2 (PyFloat.mul file_size PyFloat.lit_1e_6) in
  let '(r, st') := download DOWNLOAD_PATH W artist track_title target_dir search_term st in
  (float_lt_int approx FILESIZE_LOWER_THRESHOLD = true ->
     r = Raise (TrackObtainError "Unexpectedly small file size. Skipping...")
     /\ Forall no_download_or_transcode (new_events st st'))
  /\ (float_lt_int approx FILESIZE_LOWER_THRESHOLD = false ->
       EDownload (DOWNLOAD_PATH +:+ "/" +:+ target_dir)
                 (artist +:+ " - " +:+ track_title +:+ ".mp4") TIMEOUT_THRESHOLD
       ∈ new_events st st')
  /\ float_lt_int (binary_normalize PyFloat.prec PyFloat.emax FILESIZE_LOWER_THRESHOLD 0 false)
                  FILESIZE_LOWER_THRESHOLD = false.
Proof.
  intros Hreach Hsearch Htitle Hlen Hle Haudio Hsize file_size Hfloat approx.
  assert (Hgt : (track_length >? TRACKLENGTH_UPPER_THRESHOLD) = false).
  { rewrite Z.gtb_ltb. apply Z.ltb_ge. lia. }
  assert (Hmb : file_size_mb size_bytes = Ok approx).
  { unfold file_size_mb. by rewrite Hfloat. }
  clearbody approx.
  destruct (download _ _ _ _ _ _ _) as [r st'] eqn:Hrun. revert Hrun.
  to_search Hreach.
  all: rewrite Hsearch; steps; rewrite Htitle; steps; rewrite Hlen; steps.
  all: rewrite Hgt, bind_ask, Haudio; cbn [fs filename trace result_of].
  all: unfold stream_filesize; rewrite bind_lift, Hsize; cbn [result_of].
  all: rewrite bind_lift, Hmb, bind_emit.
  all: cbn [fs filename trace].
  all: destruct (float_lt_int approx FILESIZE_LOWER_THRESHOLD) eqn:Hlt.
  all: try (intros [= <- <-]; split_and!;
            [ intros _; split; [reflexivity | trace_tac] | discriminate | reflexivity ]).
  all: unfold Stream_download; rewrite bind_print, bind_assoc, bind_emit.
  all: cbn [fs filename trace].
  all: intros Hrun; split_and!; [discriminate | intros _ | reflexivity].
  all: match type of Hrun with
       | ?m ?s = _ =>
           pose proof (in_trace_after m
             (EDownload (DOWNLOAD_PATH +:+ "/" +:+ target_dir)
                (artist +:+ " - " +:+ track_title +:+ ".mp4") TIMEOUT_THRESHOLD)
             st s) as Hin
       end.
  all: rewrite Hrun in Hin; eapply Hin;
         [ keeps_grows | cbn [trace]; by rewrite <- ?(assoc_L (++)) | set_solver ].
Qed.

(** A run that gets past the directory check ends with the target
    directory in place; otherwise [mkdir] failed and nothing changed. *)
Lemma download_leaves_dir (artist track_title target_dir : string)
    (search_term : option string) (st : state) :
  let '(r, st') := download DOWNLOAD_PATH W artist track_title target_dir search_term st in
  is_dir (fs st') (DOWNLOAD_PATH +:+ "/" +:+ target_dir) = true
  \/ ((r = Raise FileExistsError \/ r = Raise NotADirectoryError
       \/ r = Raise FileNotFoundError) /\ fs st' = fs st).
Proof.
  destruct (download _ _ _ _ _ _ _) as [r st'] eqn:Hrun. revert Hrun.
  unfold download. cbv zeta. rewrite !file_path_eq.
  fold (intermediate_path DOWNLOAD_PATH artist track_title target_dir).
  fold (output_path_of DOWNLOAD_PATH artist track_title target_dir).
  rewrite bind_set_filename, bind_path_is_dir. cbn [fs filename trace].
  assert (Hrest : forall (m : M unit) (s : state),
    keeps (step_rel (download_emits DOWNLOAD_PATH artist track_title target_dir search_term)
                    (fs_step (DOWNLOAD_PATH +:+ "/" +:+ target_dir)
                       (intermediate_path DOWNLOAD_PATH artist track_title target_dir)
                       (output_path_of DOWNLOAD_PATH artist track_title target_dir))
                    (fn_step (artist +:+ " - " +:+ track_title +:+ ".mp4"))) m ->
    is_dir (fs s) (DOWNLOAD_PATH +:+ "/" +:+ target_dir) = true ->
    m s = (r, st') ->
    is_dir (fs st') (DOWNLOAD_PATH +:+ "/" +:+ target_dir) = true).
  { intros m s Hm Hd Hrun. specialize (Hm s). rewrite Hrun in Hm.
    destruct Hm as [_ Hfs _]. simpl in Hfs.
    apply is_dir_Some. eapply fs_step_dir_kept; [done|]. by apply is_dir_Some. }
  destruct (is_dir (fs st) _) eqn:Hd.
  - rewrite bind_ret.
    match goal with |- ?m ?s = _ -> _ =>
      intros Hrun; left; apply (Hrest m s); [|exact Hd|exact Hrun] end.
    keeps_footprint.
  - rewrite bind_assoc, bind_print. unfold mkdir at 1.
    rewrite bind_assoc, bind_emit. cbn [fs filename trace].
    unfold bind at 1. cbn [fs filename trace].
    destruct (fs st !! _) eqn:Hlook.
    { intros [= <- <-]. right. auto. }
    destruct (parent_is_dir (fs st) _).
    2:{ destruct (under_file _ _); intros [= <- <-]; right; auto. }
    cbn [put_fs fs filename trace].
    match goal with |- ?m ?s = _ -> _ =>
      intros Hrun; left; apply (Hrest m s); [| |exact Hrun] end.
    + keeps_footprint.
    + cbn [fs]. unfold is_dir. by rewrite lookup_insert_eq.
Qed.

(** After a successful run the output file is there and the intermediate
    file is not. *)
Lemma download_success_files (artist track_title target_dir : string)
    (search_term : option string) (st st' : state) :
  download DOWNLOAD_PATH W artist track_title target_dir search_term st = (Ok tt, st') ->
  fs st' !! output_path_of DOWNLOAD_PATH artist track_title target_dir = Some File
  /\ fs st' !! intermediate_path DOWNLOAD_PATH artist track_title target_dir = None.
Proof.
  intros Hrun.
  unfold download in Hrun. cbv zeta in Hrun. rewrite !file_path_eq in Hrun.
  fold (intermediate_path DOWNLOAD_PATH artist track_title target_dir) in Hrun.
  fold (output_path_of DOWNLOAD_PATH artist track_title target_dir) in Hrun.
  inv_ok Hrun.
  repeat match goal with x : unit |- _ => destruct x end.
  apply unlink_Ok in Hrun as [Hwas ->].
  repeat match goal with
  | H : write_audiofile _ _ _ = (Ok _, _) |- _ => apply write_audiofile_Ok in H
  | H : close _ _ = (Ok _, _) |- _ => apply ask_Ok in H
  end.
  split; [|apply lookup_delete_eq].
  rewrite lookup_delete_ne by (symmetry; apply output_is_not_intermediate).
  match goal with
  | H1 : fs ?a = fs ?b, H2 : fs ?b = <[_ := File]> _ |- fs ?a !! _ = _ =>
      rewrite H1, H2
  end.
  apply lookup_insert_eq.
Qed.

(** C5. After a successful run the output file exists at the computed
    path, the intermediate file does not, and nothing else changed in the
    file system except that the target directory exists; the computed path
    is 'target directory / artist - title.mp3' (for a title that does not
    end in a separator). *)
Theorem C5_success (artist track_title target_dir : string)
    (search_term : option string) (st st' : state) :
  download DOWNLOAD_PATH W artist track_title target_dir search_term st = (Ok tt, st') ->
  let out := output_path_of DOWNLOAD_PATH artist track_title target_dir in
  let inter := intermediate_path DOWNLOAD_PATH artist track_title target_dir in
  let dir_path := DOWNLOAD_PATH +:+ "/" +:+ target_dir in
  is_file (fs st') out = true
  /\ fs st' !! inter = None
  /\ is_dir (fs st') dir_path = true
  /\ (forall p, p <> out -> p <> inter -> p <> dir_path -> fs st' !! p = fs st !! p)
  /\ (ends_with_sep track_title = false ->
       out = DOWNLOAD_PATH +:+ "/" +:+ target_dir +:+ "/" +:+ artist +:+ " - "
             +:+ track_title +:+ ".mp3").
Proof.
  intros Hrun out inter dir_path.
  pose proof (download_footprint artist track_title target_dir search_term st) as Hfoot.
  pose proof (download_leaves_dir artist track_title target_dir search_term st) as Hdir.
  rewrite Hrun in Hfoot, Hdir. destruct Hfoot as [_ Hfs _]. simpl in Hfs.
  destruct (download_success_files _ _ _ _ _ _ Hrun) as [Hout Hinter].
  split_and!.
  - by apply is_file_Some.
  - done.
  - destruct Hdir as [?|[[?|[?|?]] _]]; [done|discriminate..].
  - intros p ? ? ?. by eapply fs_step_elsewhere.
  - apply output_path_literal.
Qed.

(** An empty result list makes [search_results[0]] fail: the run raises
    [IndexError] right after the search. *)
Lemma download_no_results (artist track_title target_dir : string)
    (search_term : option string) (st : state) :
  reaches_search DOWNLOAD_PATH artist track_title target_dir st = true ->
  search_answer DOWNLOAD_PATH W artist track_title target_dir search_term st = Returns [] ->
  exists st',
    download DOWNLOAD_PATH W artist track_title target_dir search_term st
      = (Raise IndexError, st')
    /\ trace st' =
         trace (state_at_search DOWNLOAD_PATH artist track_title target_dir st)
         ++ [ESearch (effective_search_term artist track_title search_term)].
Proof.
  intros Hreach Hsearch.
  to_search Hreach.
  all: rewrite Hsearch; steps; eauto.
Qed.

(** C9. An empty search term is treated as no search term: the two calls
    are the same run; the query is then artist and title joined by one
    space, and a non-empty term is the query as it is.  Every search call a
    run makes carries that query, and a run that passes the directory and
    already-downloaded checks does send it to the search collaborator. *)
Theorem C9_search_term (artist track_title target_dir : string) (st : state) :
  download DOWNLOAD_PATH W artist track_title target_dir (Some "") st
    = download DOWNLOAD_PATH W artist track_title target_dir None st
  /\ effective_search_term artist track_title None = artist +:+ " " +:+ track_title
  /\ effective_search_term artist track_title (Some "") = artist +:+ " " +:+ track_title
  /\ (forall c s, effective_search_term artist track_title (Some (String c s)) = String c s)
  /\ (forall search_term q,
        ESearch q ∈ new_events st
          (snd (download DOWNLOAD_PATH W artist track_title target_dir search_term st)) ->
        q = effective_search_term artist track_title search_term)
  /\ (forall search_term,
        reaches_search DOWNLOAD_PATH artist track_title target_dir st = true ->
        ESearch (effective_search_term artist track_title search_term)
        ∈ new_events st
            (snd (download DOWNLOAD_PATH W artist track_title target_dir search_term st))).
Proof.
  split_and!; try reflexivity.
  - intros search_term q Hq.
    pose proof (download_footprint artist track_title target_dir search_term st) as Hfoot.
    destruct Hfoot as [(evs & Htr & Hall) _ _].
    rewrite (new_events_app _ _ _ Htr) in Hq.
    rewrite Forall_forall in Hall. specialize (Hall _ Hq).
    by inversion Hall.
  - intros search_term Hreach.
    apply reaches_search_inv in Hreach as [Hfile [Hdir|(Hdir & Hnone & Hpar)]].
    all: unfold output_path_of, intermediate_path in Hfile.
    all: unfold download, Search, get_audio_only, AudioFileClip, close; cbv zeta.
    all: rewrite bind_set_filename, bind_path_is_dir; cbn [fs filename trace].
    all: rewrite Hdir.
    1: rewrite bind_ret.
    2: rewrite bind_assoc, bind_print, bind_mkdir_ok by done.
    all: rewrite bind_path_is_file; cbn [fs filename trace].
    all: rewrite ?Hfile, ?(is_file_insert_dir _ _ _ Hfile).
    all: rewrite bind_print.
    all: eapply ask_then_in_trace; [intros; keeps_grows | cbn [trace]].
    all: by rewrite <- ?(assoc_L (++)).
Qed.

End Download.

(** ** The batch run *)

Lemma keeps_weaken {A} (P P' : event -> Prop) (Q Q' : relation (gmap string node))
    (N N' : relation (option string)) (m : M A) :
  (forall e, P e -> P' e) -> (forall x y, Q x y -> Q' x y) ->
  (forall x y, N x y -> N' x y) ->
  keeps (step_rel P Q N) m -> keeps (step_rel P' Q' N') m.
Proof.
  intros HP HQ HN Hm st. destruct (Hm st) as [(evs & Htr & Hall) Hfs Hfn].
  split; [|auto..]. exists evs. split; [done|].
  eapply Forall_impl; [exact Hall|done].
Qed.

Lemma download_emits_not_a_call (D a t d : string) (s : option string) (e : event) :
  download_emits D a t d s e -> not_a_call e.
Proof. by intros []. Qed.

Lemma fs_step_kept (D a t d : string) (m m' : gmap string node) :
  fs_step (D +:+ "/" +:+ d) (intermediate_path D a t d) (output_path_of D a t d) m m' ->
  kept D m m'.
Proof.
  intros H. split.
  - intros p. by eapply fs_step_dir_kept.
  - intros p Hp. eapply fs_step_file_kept; [done|]. apply Hp.
Qed.

Global Instance kept_preorder (D : string) : PreOrder (kept D).
Proof.
  split.
  - by split.
  - intros x y z [H1 H2] [H3 H4]. split; auto.
Qed.

Lemma output_survives (D a t d : string) : survives D (output_path_of D a t d).
Proof. intros a' t' d'. apply output_is_not_intermediate. Qed.

Lemma bind_ext {A B} (m : M A) (k k' : A -> M B) (st : state) :
  (forall a s, k a s = k' a s) -> bind m k st = bind m k' st.
Proof. intros H. unfold bind. destruct (m st) as [[a|e] s]; [apply H | done]. Qed.

Lemma for_each_app {A} (l1 l2 : list A) (body : A -> M unit) (st : state) :
  for_each (l1 ++ l2) body st = bind (for_each l1 body) (fun _ => for_each l2 body) st.
Proof.
  revert st. induction l1 as [|x l1 IH]; intros st; simpl.
  - by rewrite bind_ret.
  - rewrite bind_assoc. apply bind_ext. intros _ s. apply IH.
Qed.

Lemma for_each_map {A B} (f : A -> B) (l : list A) (body : B -> M unit) (st : state) :
  for_each (map f l) body st = for_each l (fun x => body (f x)) st.
Proof.
  revert st. induction l as [|x l IH]; intros st; simpl; [done|].
  apply bind_ext. intros _ s. apply IH.
Qed.

Section Main.

Context (DOWNLOAD_PATH : string) (W : World).

Local Abbreviation dl := (download DOWNLOAD_PATH W).
Local Abbreviation dlv := (download_validated DOWNLOAD_PATH W).
Local Abbreviation att := (attempt DOWNLOAD_PATH W).
Local Abbreviation run := (batch DOWNLOAD_PATH W).

Lemma download_validated_eq (a t d : string) (s : option string) (st : state) :
  dlv a t d s st =
  if interrupt_pending W (trace (at_call a t d st))
  then (Raise KeyboardInterrupt, at_call a t d st)
  else dl a t d s (at_call a t d st).
Proof.
  unfold download_validated, validate_arguments, at_call.
  rewrite bind_emit. unfold bind at 1. cbn [fs filename trace].
  by destruct (interrupt_pending W _).
Qed.

(** The loop nest of [main] visits the requests of the configuration in
    the order of [triples]. *)
Lemma main_flat (tracks : list (string * list (string * list string))) (st : state) :
  main DOWNLOAD_PATH W tracks st =
  (print "Download routine initialised." ;;
   run (triples tracks) ;;
   print "Download routine complete.") st.
Proof.
  unfold main. rewrite !bind_print.
  assert (Hloop : forall s,
    for_each tracks (fun '(genre, tracks_dict) =>
      for_each tracks_dict (fun '(artist, list_of_track_titles) =>
        for_each list_of_track_titles (fun track_title =>
          att genre artist track_title))) s
    = run (triples tracks) s).
  { induction tracks as [|[genre tracks_dict] tracks IH]; intros s; [done|].
    unfold batch in *. cbn [triples flat_map]. rewrite for_each_app.
    cbn [for_each].
    assert (Hinner : forall s',
      for_each tracks_dict (fun '(artist, list_of_track_titles) =>
        for_each list_of_track_titles (fun track_title =>
          att genre artist track_title)) s'
      = for_each (flat_map (fun '(artist, list_of_track_titles) =>
          map (fun track_title => (genre, artist, track_title)) list_of_track_titles)
          tracks_dict)
          (fun '(genre, artist, track_title) => att genre artist track_title) s').
    { clear. induction tracks_dict as [|[artist titles] tracks_dict IH]; intros s'; [done|].
      cbn [flat_map for_each]. rewrite for_each_app.
      unfold bind. rewrite for_each_map.
      destruct (for_each titles _ s') as [[[]|e] s1]; [apply IH | done]. }
    unfold bind. rewrite Hinner.
    destruct (for_each _ _ s) as [[[]|e] s1]; [apply IH | done]. }
  unfold bind. rewrite Hloop. done.
Qed.

(** An iteration whose call succeeded or was skipped goes on from the
    state the call left. *)
Lemma attempt_acquired (g a t : string) (st st1 : state) (r : result unit) :
  dlv a t g None st = (r, st1) -> acquired r = true -> att g a t st = (Ok tt, st1).
Proof.
  intros Hrun Hr. unfold attempt, try_except, bind. rewrite Hrun.
  destruct r as [[]|[| |]]; try discriminate; done.
Qed.

(** What such a call leaves: the output file in its directory, the rest of
    the file system kept, and one call in the trace. *)
Lemma validated_acquired (g a t : string) (st st1 : state) (r : result unit) :
  dlv a t g None st = (r, st1) -> acquired r = true ->
  is_file (fs st1) (output_path_of DOWNLOAD_PATH a t g) = true
  /\ is_dir (fs st1) (DOWNLOAD_PATH +:+ "/" +:+ g) = true
  /\ kept DOWNLOAD_PATH (fs st) (fs st1)
  /\ (succeeded r = true -> is_file (fs st) (output_path_of DOWNLOAD_PATH a t g) = false)
  /\ exists evs, trace st1 = trace st ++ ECall a t g :: evs /\ Forall not_a_call evs.
Proof.
  rewrite download_validated_eq.
  destruct (interrupt_pending W _); [by intros [= <- <-]|].
  intros Hrun Hr.
  pose proof (download_footprint DOWNLOAD_PATH W a t g None (at_call a t g st)) as Hfoot.
  pose proof (download_leaves_dir DOWNLOAD_PATH W a t g None (at_call a t g st)) as Hdir.
  rewrite Hrun in Hfoot, Hdir. destruct Hfoot as [(evs & Htr & Hall) Hfs _].
  cbn [snd fs trace at_call] in *.
  split_and!.
  - destruct r as [[]|[| |]]; try discriminate.
    + apply is_file_Some. by apply download_success_files in Hrun as (? & _).
    + by apply download_skip_inv in Hrun as (? & _).
  - destruct Hdir as [?|[[->|[->| ->]] _]]; [done|discriminate..].
  - by eapply fs_step_kept.
  - intros Hok. destruct r as [[]|]; [|discriminate].
    by apply download_ok_fresh in Hrun.
  - exists evs. rewrite Htr, <- (assoc_L (++)). split; [done|].
    eapply Forall_impl; [exact Hall|]. apply download_emits_not_a_call.
Qed.

Lemma calls_not_a_call (evs : list event) : Forall not_a_call evs -> calls evs = [].
Proof.
  induction 1 as [|e evs He _ IH]; [done|].
  unfold calls in *. cbn [omap list_omap]. destruct e; first [done | by rewrite IH].
Qed.

Lemma calls_app (evs1 evs2 : list event) : calls (evs1 ++ evs2) = calls evs1 ++ calls evs2.
Proof. apply omap_app. Qed.

Lemma try_except_emit {A B} (e : event) (k1 : unit -> M A) (k2 : A -> M B)
    (h : exn -> option (M B)) (st : state) :
  try_except (bind (bind (emit e) k1) k2) h st
  = try_except (bind (k1 tt) k2) h (mkState (fs st) (filename st) (trace st ++ [e])).
Proof. reflexivity. Qed.

(** Whatever its outcome, an iteration records exactly one call, first. *)
Lemma attempt_events (g a t : string) (st : state) :
  exists evs,
    trace (snd (att g a t st)) = trace st ++ ECall a t g :: evs
    /\ Forall not_a_call evs.
Proof.
  unfold attempt, download_validated, validate_arguments.
  rewrite try_except_emit.
  match goal with |- context [snd (?m ?s)] =>
    assert (Hk : keeps (step_rel not_a_call any_fs any_fn) m) end.
  { kapply keeps_try_except.
    - kapply keeps_bind.
      + kapply keeps_bind; [kapply keeps_read|]. intros pending.
        kapply keeps_if; [kapply keeps_raise|].
        eapply keeps_weaken; [| | |apply download_footprint]; try done.
        apply download_emits_not_a_call.
      + intros _. keeps_triv.
    - intros e k Hh. destruct e as [| |[]]; simpl in Hh; simplify_eq;
        unfold cleanup_and_exit; keeps_triv. }
  destruct (Hk (mkState (fs st) (filename st) (trace st ++ [ECall a t g])))
    as [(evs & Htr & Hall) _ _].
  exists evs. cbn [trace] in Htr. by rewrite Htr, <- (assoc_L (++)).
Qed.

Lemma every_download_weaken (P Q : result unit -> bool)
    (l : list (string * string * string)) (st : state) :
  (forall r, P r = true -> Q r = true) ->
  every_download DOWNLOAD_PATH W P l st = true ->
  every_download DOWNLOAD_PATH W Q l st = true.
Proof.
  intros HPQ. revert st. induction l as [|[[g a] t] l IH]; intros st; [done|].
  cbn [every_download]. destruct (dlv a t g None st) as [r st1].
  intros [Hr Hl]%andb_true_iff. apply andb_true_iff. auto.
Qed.

(** A batch in which every call succeeds or is skipped runs to the end;
    afterwards every request has its output file in its directory. *)
Lemma batch_acquired (l : list (string * string * string)) (st : state) :
  every_download DOWNLOAD_PATH W acquired l st = true ->
  exists st',
    run l st = (Ok tt, st')
    /\ kept DOWNLOAD_PATH (fs st) (fs st')
    /\ (forall x, x ∈ l ->
          is_file (fs st') (request_output DOWNLOAD_PATH x) = true
          /\ is_dir (fs st') (request_dir DOWNLOAD_PATH x) = true)
    /\ exists evs, trace st' = trace st ++ evs /\ calls evs = l.
Proof.
  revert st. induction l as [|[[g a] t] l IH]; intros st.
  - intros _. exists st. split_and!; [done|reflexivity|set_solver|].
    exists []. by rewrite List.app_nil_r.
  - cbn [every_download]. destruct (dlv a t g None st) as [r st1] eqn:Hrun.
    intros [Hr Hl]%andb_true_iff.
    destruct (validated_acquired _ _ _ _ _ _ Hrun Hr)
      as (Hfile & Hdir & Hkept & _ & evs1 & Htr1 & Hall1).
    destruct (IH st1 Hl) as (st' & Hrest & Hkept' & Hfiles & evs' & Htr' & Hcalls).
    exists st'. split_and!.
    + unfold batch. cbn [for_each]. unfold bind.
      rewrite (attempt_acquired _ _ _ _ _ _ Hrun Hr). exact Hrest.
    + by etrans.
    + intros x [->|Hx]%elem_of_cons; [|by apply Hfiles].
      cbn [request_output request_dir]. destruct Hkept' as [Hd Hf]. split.
      * apply is_file_Some, Hf; [apply output_survives|]. by apply is_file_Some.
      * apply is_dir_Some, Hd. by apply is_dir_Some.
    + exists ((ECall a t g :: evs1) ++ evs'). split.
      * by rewrite Htr', Htr1, <- !(assoc_L (++)).
      * rewrite calls_app. change (ECall a t g :: evs1) with ([ECall a t g] ++ evs1).
        rewrite calls_app, (calls_not_a_call evs1 Hall1), Hcalls. done.
Qed.

(** In a batch of successes no output path was there before, and no two
    requests share one. *)
Lemma batch_succeeded_fresh (l : list (string * string * string)) (st : state) (p : string) :
  every_download DOWNLOAD_PATH W succeeded l st = true ->
  survives DOWNLOAD_PATH p -> fs st !! p = Some File ->
  p ∉ (request_output DOWNLOAD_PATH <$> l).
Proof.
  revert st. induction l as [|[[g a] t] l IH]; intros st; [set_solver|].
  cbn [every_download]. destruct (dlv a t g None st) as [r st1] eqn:Hrun.
  intros [Hr Hl]%andb_true_iff Hp Hfile.
  assert (Hacq : acquired r = true) by (unfold acquired; by rewrite Hr).
  destruct (validated_acquired _ _ _ _ _ _ Hrun Hacq)
    as (_ & _ & [_ Hkept] & Hfresh & _).
  rewrite fmap_cons. apply not_elem_of_cons. split.
  - intros ->. cbn [request_output] in Hfile.
    apply is_file_Some in Hfile. rewrite (Hfresh Hr) in Hfile. done.
  - eapply IH; [exact Hl|exact Hp|]. by apply Hkept.
Qed.

Lemma batch_succeeded_nodup (l : list (string * string * string)) (st : state) :
  every_download DOWNLOAD_PATH W succeeded l st = true ->
  NoDup (request_output DOWNLOAD_PATH <$> l).
Proof.
  revert st. induction l as [|[[g a] t] l IH]; intros st; [constructor|].
  cbn [every_download]. destruct (dlv a t g None st) as [r st1] eqn:Hrun.
  intros [Hr Hl]%andb_true_iff.
  assert (Hacq : acquired r = true) by (unfold acquired; by rewrite Hr).
  destruct (validated_acquired _ _ _ _ _ _ Hrun Hacq) as (Hfile & _).
  rewrite fmap_cons. constructor; [|by eapply IH].
  eapply batch_succeeded_fresh; [exact Hl|apply output_survives|].
  by apply is_file_Some.
Qed.

(** Over a download root that holds every output, and without an
    interruption, every request is skipped: no collaborator is called and
    the file system stays as it is. *)
Lemma batch_skipped (l : list (string * string * string)) (st : state) :
  (forall h, interrupt_pending W h = false) ->
  (forall x, x ∈ l ->
     is_file (fs st) (request_output DOWNLOAD_PATH x) = true
     /\ is_dir (fs st) (request_dir DOWNLOAD_PATH x) = true) ->
  exists st',
    run l st = (Ok tt, st')
    /\ fs st' = fs st
    /\ every_download DOWNLOAD_PATH W skipped l st = true
    /\ exists evs, trace st' = trace st ++ evs
         /\ Forall no_collaborator_call evs /\ calls evs = l.
Proof.
  intros Hquiet. revert st. induction l as [|[[g a] t] l IH]; intros st Hall.
  - exists st. split_and!; [done..|]. exists []. by rewrite List.app_nil_r.
  - destruct (Hall (g, a, t)) as [Hfile Hdir]; [by left|].
    cbn [request_output request_dir] in Hfile, Hdir.
    destruct (download_skips DOWNLOAD_PATH W a t g None (at_call a t g st) Hdir Hfile)
      as [msg Hskip].
    assert (Hrun : dlv a t g None st =
      (Raise (TrackAlreadyDownloaded msg),
       mkState (fs st) (Some (a +:+ " - " +:+ t +:+ ".mp4"))
               (trace st ++ [ECall a t g]))).
    { rewrite download_validated_eq, Hquiet. exact Hskip. }
    set (st1 := mkState (fs st) (Some (a +:+ " - " +:+ t +:+ ".mp4"))
                        (trace st ++ [ECall a t g])) in *.
    destruct (IH st1) as (st' & Hrest & Hfs & Hevery & evs & Htr & Hquiet' & Hcalls).
    { intros x Hx. apply Hall. by right. }
    exists st'. split_and!.
    + unfold batch. cbn [for_each]. unfold bind.
      rewrite (attempt_acquired _ _ _ _ _ _ Hrun eq_refl). exact Hrest.
    + by rewrite Hfs.
    + cbn [every_download]. rewrite Hrun. exact Hevery.
    + exists (ECall a t g :: evs). split_and!.
      * rewrite Htr. subst st1. cbn [trace]. by rewrite <- (assoc_L (++)).
      * by constructor.
      * change (ECall a t g :: evs) with ([ECall a t g] ++ evs).
        by rewrite calls_app, Hcalls.
Qed.

(** The calls of any run are an initial part of the requests, in order;
    all of them when the run ends normally. *)
Lemma batch_calls (l : list (string * string * string)) (st : state) :
  exists evs k,
    trace (snd (run l st)) = trace st ++ evs
    /\ calls evs = take k l
    /\ (fst (run l st) = Ok tt -> calls evs = l).
Proof.
  revert st. induction l as [|[[g a] t] l IH]; intros st.
  - exists [], 0%nat. by rewrite List.app_nil_r.
  - destruct (attempt_events g a t st) as (evs1 & Htr1 & Hall1).
    unfold batch in *. cbn [for_each]. unfold bind.
    destruct (att g a t st) as [[[]|e] st1]; cbn [fst snd] in *.
    + destruct (IH st1) as (evs & k & Htr & Hk & Hok).
      exists ((ECall a t g :: evs1) ++ evs), (S k). split_and!.
      * by rewrite Htr, Htr1, <- !(assoc_L (++)).
      * rewrite calls_app. change (ECall a t g :: evs1) with ([ECall a t g] ++ evs1).
        by rewrite calls_app, (calls_not_a_call evs1 Hall1), Hk.
      * intros H. rewrite calls_app.
        change (ECall a t g :: evs1) with ([ECall a t g] ++ evs1).
        by rewrite calls_app, (calls_not_a_call evs1 Hall1), (Hok H).
    + exists (ECall a t g :: evs1), 1%nat. split_and!; [done| |done].
      change (ECall a t g :: evs1) with ([ECall a t g] ++ evs1).
      by rewrite calls_app, (calls_not_a_call evs1 Hall1).
Qed.

End Main.

(** ** The claims about the batch run *)

Section Batch.

Context (DOWNLOAD_PATH : string) (W : World).

Lemma new_events_banner (st st' : state) (evs : list event) :
  trace st' = trace (after_banner st) ++ evs ->
  new_events st st' = EPrint "Download routine initialised." :: evs.
Proof.
  intros H. apply new_events_app. rewrite H. unfold after_banner. cbn [trace].
  by rewrite <- (assoc_L (++)).
Qed.

Lemma main_run (tracks : list (string * list (string * list string))) (st : state) :
  main DOWNLOAD_PATH W tracks st =
  match batch DOWNLOAD_PATH W (triples tracks) (after_banner st) with
  | (Ok _, st1) =>
      (Ok tt, mkState (fs st1) (filename st1)
                      (trace st1 ++ [EPrint "Download routine complete."]))
  | (Raise e, st1) => (Raise e, st1)
  end.
Proof.
  rewrite main_flat, bind_print. unfold bind.
  fold (after_banner st).
  by destruct (batch _ _ _ _) as [[[]|e] st1].
Qed.

(** C7. The batch visits the requests genre by genre, artist by artist,
    title by title: the loop nest is the loop over [triples]; the calls of
    any run are an initial part of that list and all of it when the run ends
    normally; when every call succeeds, every request has its output file
    and no two requests share one.  A configuration of 2 genres x 2 artists
    x 2 titles has the eight requests in that order. *)
Theorem C7_batch_order (tracks : list (string * list (string * list string)))
    (st : state) :
  main DOWNLOAD_PATH W tracks st
    = (print "Download routine initialised." ;;
       batch DOWNLOAD_PATH W (triples tracks) ;;
       print "Download routine complete.") st
  /\ (let '(r, st') := main DOWNLOAD_PATH W tracks st in
      (exists k, calls (new_events st st') = take k (triples tracks))
      /\ (r = Ok tt -> calls (new_events st st') = triples tracks))
  /\ (every_download DOWNLOAD_PATH W succeeded (triples tracks) (after_banner st) = true ->
      exists st',
        main DOWNLOAD_PATH W tracks st = (Ok tt, st')
        /\ calls (new_events st st') = triples tracks
        /\ (forall x, x ∈ triples tracks ->
              is_file (fs st') (request_output DOWNLOAD_PATH x) = true)
        /\ NoDup (request_output DOWNLOAD_PATH <$> triples tracks))
  /\ (forall g1 g2 a1 a2 a3 a4 t1 t2 t3 t4 t5 t6 t7 t8 : string,
        triples [(g1, [(a1, [t1; t2]); (a2, [t3; t4])]);
                 (g2, [(a3, [t5; t6]); (a4, [t7; t8])])]
        = [(g1, a1, t1); (g1, a1, t2); (g1, a2, t3); (g1, a2, t4);
           (g2, a3, t5); (g2, a3, t6); (g2, a4, t7); (g2, a4, t8)]).
Proof.
  split_and!.
  - apply main_flat.
  - rewrite main_run.
    destruct (batch_calls DOWNLOAD_PATH W (triples tracks) (after_banner st))
      as (evs & k & Htr & Hk & Hok).
    destruct (batch _ _ _ _) as [[[]|e] st1]; cbn [fst snd] in *.
    + rewrite (new_events_banner st _ (evs ++ [EPrint "Download routine complete."])).
      2:{ cbn [trace]. by rewrite Htr, <- (assoc_L (++)). }
      change (EPrint "Download routine initialised." :: evs ++ _)
        with ([EPrint "Download routine initialised."] ++ evs ++
              [EPrint "Download routine complete."]).
      rewrite !calls_app. cbn [calls omap list_omap]. rewrite List.app_nil_r.
      split; [eauto | auto].
    + rewrite (new_events_banner st _ evs Htr).
      change (EPrint "Download routine initialised." :: evs)
        with ([EPrint "Download routine initialised."] ++ evs).
      rewrite calls_app. cbn [calls omap list_omap].
      split; [eauto | done].
  - intros Hall.
    assert (Hacq : every_download DOWNLOAD_PATH W acquired (triples tracks)
                     (after_banner st) = true).
    { eapply every_download_weaken; [|exact Hall].
      intros r Hr. unfold acquired. by rewrite Hr. }
    destruct (batch_acquired DOWNLOAD_PATH W _ _ Hacq)
      as (st1 & Hrun & _ & Hfiles & evs & Htr & Hcalls).
    eexists. rewrite main_run, Hrun. split_and!; [reflexivity| | |].
    + rewrite (new_events_banner st _ (evs ++ [EPrint "Download routine complete."])).
      2:{ cbn [trace]. by rewrite Htr, <- (assoc_L (++)). }
      change (EPrint "Download routine initialised." :: evs ++ _)
        with ([EPrint "Download routine initialised."] ++ evs ++
              [EPrint "Download routine complete."]).
      rewrite !calls_app. cbn [calls omap list_omap]. by rewrite List.app_nil_r.
    + intros x Hx. cbn [fs]. by apply Hfiles.
    + by eapply batch_succeeded_nodup.
  - reflexivity.
Qed.

End Batch.

Section Interruption.

Context (DOWNLOAD_PATH : string) (W : World).

(** Every call of [download] binds the global to the file name of its
    request, whatever the outcome. *)
Lemma download_sets_global (a t d : string) (s : option string) (st : state) :
  filename (snd (download DOWNLOAD_PATH W a t d s st)) = Some (a +:+ " - " +:+ t +:+ ".mp4").
Proof.
  unfold download. cbv zeta. rewrite bind_set_filename.
  match goal with |- filename (snd (?m ?s0)) = _ =>
    assert (Hk : keeps (step_rel any_event any_fs eq) m) by keeps_triv;
    destruct (Hk s0) as [_ _ Hfn]
  end.
  by rewrite <- Hfn.
Qed.

Lemma handlers_interruption (genre : string) (e : exn) :
  is_interruption e ->
  handlers DOWNLOAD_PATH genre e = Some (cleanup_and_exit DOWNLOAD_PATH genre e).
Proof. by intros [->|[msg ->]]. Qed.

(** The handler, with the global bound to [f]: it unlinks
    [DOWNLOAD_PATH/genre/f], which is then no file, and exits; it fails
    instead when that path is a directory or lies under a regular file. *)
Lemma cleanup_bound (genre f : string) (e : exn) (st : state) :
  filename st = Some f ->
  let path := DOWNLOAD_PATH +:+ "/" +:+ genre +:+ "/" +:+ f in
  let '(r, st') := cleanup_and_exit DOWNLOAD_PATH genre e st in
  EUnlink path ∈ new_events st st'
  /\ is_file (fs st') path = false
  /\ (forall p, p <> path -> fs st' !! p = fs st !! p)
  /\ r = match fs st !! path with
         | Some Dir => Raise IsADirectoryError
         | Some File => Raise SystemExit
         | None => if under_file (fs st) path then Raise NotADirectoryError
                   else Raise SystemExit
         end
  /\ (r = Raise SystemExit -> EExit ∈ new_events st st').
Proof.
  intros Hf path. unfold cleanup_and_exit, get_filename.
  unfold bind at 1. rewrite Hf. fold path.
  unfold unlink. rewrite bind_assoc, bind_emit. cbn [fs filename trace].
  unfold bind at 1. cbn [fs filename trace].
  destruct (fs st !! path) as [[]|] eqn:Hlook.
  - cbn [put_fs]. steps. unfold raise.
    split_and!; [trace_tac| |intros; cbn [fs]; by apply lookup_delete_ne|done|intros _; trace_tac].
    unfold is_file. cbn [fs]. by rewrite lookup_delete_eq.
  - split_and!; [trace_tac| |done|done|discriminate].
    unfold is_file. cbn [fs]. by rewrite Hlook.
  - destruct (under_file (fs st) path).
    + split_and!; [trace_tac| |done|done|discriminate].
      unfold is_file. cbn [fs]. by rewrite Hlook.
    + steps. unfold raise.
      split_and!; [trace_tac| |done|done|intros _; trace_tac].
      unfold is_file. cbn [fs]. by rewrite Hlook.
Qed.

(** The handler, with the global unbound: the f-string that builds the path
    fails. *)
Lemma cleanup_unbound (genre : string) (e : exn) (st : state) :
  filename st = None ->
  cleanup_and_exit DOWNLOAD_PATH genre e st = (Raise (NameError "filename"), st).
Proof.
  intros Hf. unfold cleanup_and_exit, get_filename. unfold bind at 1. by rewrite Hf.
Qed.

(** X1.  An interruption that surfaces from the body of the per-track
    operation (from any of its collaborator calls): the iteration unlinks
    the intermediate file of that request, which is then no file, and leaves
    the loop: with [SystemExit], or with the failure of the unlink when the
    path is a directory ([IsADirectoryError]) or lies under a regular file
    ([NotADirectoryError]). *)
Lemma interrupted_in_body (g a t : string) (l : list (string * string * string))
    (st st1 : state) (e : exn) :
  interrupt_pending W (trace (at_call a t g st)) = false ->
  download DOWNLOAD_PATH W a t g None (at_call a t g st) = (Raise e, st1) ->
  is_interruption e ->
  let '(r, st') := batch DOWNLOAD_PATH W ((g, a, t) :: l) st in
  is_file (fs st') (intermediate_path DOWNLOAD_PATH a t g) = false
  /\ EUnlink (intermediate_path DOWNLOAD_PATH a t g) ∈ new_events st1 st'
  /\ (r = Raise SystemExit \/ r = Raise IsADirectoryError \/ r = Raise NotADirectoryError)
  /\ new_events st1 st' = new_events st1 (snd (cleanup_and_exit DOWNLOAD_PATH g e st1)).
Proof.
  intros Hquiet Hrun He.
  assert (Hdlv : download_validated DOWNLOAD_PATH W a t g None st = (Raise e, st1)).
  { by rewrite download_validated_eq, Hquiet. }
  assert (Hatt : attempt DOWNLOAD_PATH W g a t st = cleanup_and_exit DOWNLOAD_PATH g e st1).
  { unfold attempt, try_except, bind. rewrite Hdlv.
    by rewrite (handlers_interruption g e He). }
  pose proof (download_sets_global a t g None (at_call a t g st)) as Hglobal.
  rewrite Hrun in Hglobal. cbn [snd] in Hglobal.
  pose proof (cleanup_bound g _ e st1 Hglobal) as Hclean. cbv zeta in Hclean.
  unfold batch. cbn [for_each]. unfold bind. rewrite Hatt.
  destruct (cleanup_and_exit DOWNLOAD_PATH g e st1) as [r st'] eqn:Hc.
  destruct Hclean as (Hin & Hfile & _ & Hr & _).
  assert (Hcases : r = Raise SystemExit \/ r = Raise IsADirectoryError
                   \/ r = Raise NotADirectoryError).
  { rewrite Hr. destruct (fs st1 !! _) as [[]|]; [auto..|].
    destruct (under_file _ _); auto. }
  assert (Hraise : exists x, r = Raise x).
  { destruct Hcases as [->|[->| ->]]; eauto. }
  destruct Hraise as [x ->]. cbn [snd].
  split_and!; done.
Qed.

(** C10. The handler deletes the path built from the current genre and the
    global [filename]: it unlinks that path and no other, the path is no
    file afterwards, and the handler ends in [SystemExit] after [exit()]
    (unless the path is a directory or lies under a regular file, where the
    unlink itself fails).  The global is whatever the last call of the
    per-track operation assigned; an interruption caught before the first
    call has assigned it makes the handler fail with [NameError]: nothing is
    deleted and the process does not exit through [exit()]. *)
Theorem C10_handler_uses_global (genre : string) (e : exn) (st : state) :
  (forall f, filename st = Some f ->
     let path := DOWNLOAD_PATH +:+ "/" +:+ genre +:+ "/" +:+ f in
     let '(r, st') := cleanup_and_exit DOWNLOAD_PATH genre e st in
     EUnlink path ∈ new_events st st'
     /\ is_file (fs st') path = false
     /\ (forall p, p <> path -> fs st' !! p = fs st !! p)
     /\ r = match fs st !! path with
            | Some Dir => Raise IsADirectoryError
            | Some File => Raise SystemExit
            | None => if under_file (fs st) path then Raise NotADirectoryError
                      else Raise SystemExit
            end
     /\ (r = Raise SystemExit -> EExit ∈ new_events st st'))
  /\ (forall a t d s st0,
        filename (snd (download DOWNLOAD_PATH W a t d s st0))
        = Some (a +:+ " - " +:+ t +:+ ".mp4"))
  /\ (filename st = None ->
      cleanup_and_exit DOWNLOAD_PATH genre e st = (Raise (NameError "filename"), st))
  /\ (forall tracks a t rest,
        filename st = None ->
        triples tracks = (genre, a, t) :: rest ->
        interrupt_pending W (trace (at_call a t genre (after_banner st))) = true ->
        main DOWNLOAD_PATH W tracks st
        = (Raise (NameError "filename"), at_call a t genre (after_banner st))).
Proof.
  split_and!.
  - intros f Hf. exact (cleanup_bound genre f e st Hf).
  - intros. apply download_sets_global.
  - apply cleanup_unbound.
  - intros tracks a t rest Hnone Htriples Hpending.
    rewrite main_run, Htriples. unfold batch. cbn [for_each]. unfold bind.
    unfold attempt, try_except, bind.
    rewrite download_validated_eq, Hpending. cbn [handlers].
    by rewrite cleanup_unbound.
Qed.

End Interruption.

(** C8, as amended.  When every call of the first run succeeds or is
    skipped, the first run ends normally and a second run over the same
    configuration and download root, without interruption, skips every
    request: it calls no collaborator and leaves the file system as the
    first run left it. *)
Theorem C8_second_run_skips (DOWNLOAD_PATH : string) (W1 W2 : World)
    (tracks : list (string * list (string * list string))) (st : state) :
  every_download DOWNLOAD_PATH W1 acquired (triples tracks) (after_banner st) = true ->
  (forall h, interrupt_pending W2 h = false) ->
  exists st1 st2,
    main DOWNLOAD_PATH W1 tracks st = (Ok tt, st1)
    /\ main DOWNLOAD_PATH W2 tracks st1 = (Ok tt, st2)
    /\ fs st2 = fs st1
    /\ every_download DOWNLOAD_PATH W2 skipped (triples tracks) (after_banner st1) = true
    /\ Forall no_collaborator_call (new_events st1 st2).
Proof.
  intros Hacq Hquiet.
  destruct (batch_acquired DOWNLOAD_PATH W1 _ _ Hacq)
    as (s1 & Hrun1 & _ & Hfiles & _).
  set (st1 := mkState (fs s1) (filename s1)
                      (trace s1 ++ [EPrint "Download routine complete."])).
  destruct (batch_skipped DOWNLOAD_PATH W2 (triples tracks) (after_banner st1) Hquiet)
    as (s2 & Hrun2 & Hfs & Hskip & evs & Htr & Hnone & _).
  { intros x Hx. cbn [after_banner fs st1]. by apply Hfiles. }
  exists st1, (mkState (fs s2) (filename s2)
                       (trace s2 ++ [EPrint "Download routine complete."])).
  split_and!.
  - by rewrite main_run, Hrun1.
  - by rewrite main_run, Hrun2.
  - done.
  - done.
  - rewrite (new_events_banner st1 _ (evs ++ [EPrint "Download routine complete."])).
    2:{ cbn [trace]. by rewrite Htr, <- (assoc_L (++)). }
    constructor; [done|]. apply Forall_app. split; [done|]. by repeat constructor.
Qed.

(** ** The properties on sample inputs *)

Import Samples.

Example with_suffix_mp4 :
  PathLib.with_suffix "/downloads/house/Daft Punk - One More Time.mp4" ".mp3"
  = "/downloads/house/Daft Punk - One More Time.mp3".
Proof. reflexivity. Qed.

Example with_suffix_dotted_title :
  PathLib.with_suffix "dl/g/A - Mr. Brightside.mp4" ".mp3" = "dl/g/A - Mr. Brightside.mp3".
Proof. reflexivity. Qed.

(** A title that ends with a separator leaves the final component ['.mp4'],
    which has no suffix to replace. *)
Example with_suffix_hidden_name :
  PathLib.with_suffix "dl/g/A - x/.mp4" ".mp3" = "dl/g/A - x/.mp4.mp3".
Proof. reflexivity. Qed.

(** The literal [1e-6] is the double nearest to 10^-6: the error is at most
    half a unit in the last place (2^-73). *)
Example lit_1e_6_nearest :
  2 * Z.abs (4722366482869645 * 10 ^ 6 - 2 ^ 72) <= 10 ^ 6.
Proof. vm_compute. discriminate. Qed.

(** 1995000 bytes: the product with [1e-6] falls just under 1.995, the size
    is 1.99 and the track is too small (exact decimal arithmetic would give
    2.0); 1995001 bytes give 2.0. *)
Example file_size_1995000 :
  file_size_mb 1995000 = Ok (S754_finite false 8962163258467287 (-52))
  /\ float_lt_int (S754_finite false 8962163258467287 (-52)) FILESIZE_LOWER_THRESHOLD = true.
Proof. split; vm_compute; reflexivity. Qed.

Example file_size_1995001 :
  file_size_mb 1995001 = Ok (S754_finite false 4503599627370496 (-51))
  /\ float_lt_int (S754_finite false 4503599627370496 (-51)) FILESIZE_LOWER_THRESHOLD = false.
Proof. split; vm_compute; reflexivity. Qed.

Example seconds_to_mins_200 : seconds_to_mins 200 = "3m 20s".
Proof. vm_compute. reflexivity. Qed.

Lemma C1_witness :
  exists msg st',
    download DL W_ok "Daft Punk" "One More Time" "house" None (initial_state fs_done)
      = (Raise (TrackAlreadyDownloaded msg), st')
    /\ trace st' = [] /\ fs st' = fs_done.
Proof.
  apply (C1_already_acquired DL W_ok "Daft Punk" "One More Time" "house" None
           (initial_state fs_done)); vm_compute; reflexivity.
Defined.

Lemma C3_witness :
  fst (download DL W_long "Daft Punk" "One More Time" "house" None (initial_state fs_root))
  = Raise (TrackObtainError "Unexpectedly long track. Skipping...")
  /\ EGetAudioOnly "webm" ∈
       new_events (initial_state fs_root)
         (snd (download DL W_limit "Daft Punk" "One More Time" "house" None
                 (initial_state fs_root))).
Proof.
  split.
  - pose proof (C3_too_long DL W_long "Daft Punk" "One More Time" "house" None
                  (initial_state fs_root) (video 901 5000000) [] "Official video" 901
                  eq_refl eq_refl eq_refl eq_refl) as H.
    destruct (download _ _ _ _ _ _ _) as [r st']. destruct H as [H _].
    apply H. reflexivity.
  - pose proof (C3_too_long DL W_limit "Daft Punk" "One More Time" "house" None
                  (initial_state fs_root) (video 900 2000000) [] "Official video" 900
                  eq_refl eq_refl eq_refl eq_refl) as H.
    destruct (download _ _ _ _ _ _ _) as [r st']. destruct H as [_ H].
    apply H. reflexivity.
Defined.

Lemma C4_witness :
  fst (download DL W_small "Daft Punk" "One More Time" "house" None (initial_state fs_root))
  = Raise (TrackObtainError "Unexpectedly small file size. Skipping...").
Proof.
  pose proof (C4_too_small DL W_small "Daft Punk" "One More Time" "house" None
                (initial_state fs_root) (video 200 1995000) [] "Official video" 200
                (stream_of 1995000) 1995000
                eq_refl eq_refl eq_refl eq_refl ltac:(vm_compute; discriminate)
                eq_refl eq_refl
                (S754_finite false 8568459755520000 (-32)) eq_refl) as H.
  cbv zeta in H.
  destruct (download _ _ _ _ _ _ _) as [r st']. destruct H as [H _].
  apply H. vm_compute. reflexivity.
Defined.

Lemma C5_witness :
  let st' := snd (download DL W_ok "Daft Punk" "One More Time" "house" None
                    (initial_state fs_root)) in
  is_file (fs st') "/downloads/house/Daft Punk - One More Time.mp3" = true
  /\ fs st' !! "/downloads/house/Daft Punk - One More Time.mp4" = None.
Proof.
  intros st'.
  destruct (C5_success DL W_ok "Daft Punk" "One More Time" "house" None
              (initial_state fs_root) st') as (Hout & Hinter & _).
  { vm_compute. reflexivity. }
  split; [exact Hout | exact Hinter].
Defined.

Lemma C7_witness :
  exists st',
    main DL W_ok eight_tracks (initial_state fs_root) = (Ok tt, st')
    /\ calls (new_events (initial_state fs_root) st')
       = [("house", "Daft Punk", "One More Time");
          ("house", "Daft Punk", "Around the World");
          ("house", "Cassius", "Feeling for You");
          ("house", "Cassius", "1999");
          ("dub", "King Tubby", "Dub from the Roots");
          ("dub", "King Tubby", "A Ruffer Version");
          ("dub", "Scientist", "Your Teeth in My Neck");
          ("dub", "Scientist", "Plague of Zombies")]
    /\ (forall x, x ∈ triples eight_tracks -> is_file (fs st') (request_output DL x) = true)
    /\ NoDup (request_output DL <$> triples eight_tracks).
Proof.
  destruct (C7_batch_order DL W_ok eight_tracks (initial_state fs_root))
    as (_ & _ & H & _).
  apply H. vm_compute. reflexivity.
Defined.

(** C8 as stated, at one input: a configuration of one track whose top
    search result is too long.  Both runs end normally and leave the same
    (empty) set of output files, but the second run does not skip the track:
    it searches again and rejects it again. *)
Lemma C8_counterexample :
  fst (main DL W_long one_track (initial_state fs_root)) = Ok tt
  /\ fst (main DL W_long one_track (snd (main DL W_long one_track (initial_state fs_root))))
     = Ok tt
  /\ every_download DL W_long skipped (triples one_track)
       (after_banner (snd (main DL W_long one_track (initial_state fs_root)))) = false
  /\ fst (download_validated DL W_long "Daft Punk" "One More Time" "house" None
            (after_banner (snd (main DL W_long one_track (initial_state fs_root)))))
     = Raise (TrackObtainError "Unexpectedly long track. Skipping...").
Proof. vm_compute. done. Qed.

Lemma C8_witness :
  exists st1 st2,
    main DL W_ok two_tracks (initial_state fs_root) = (Ok tt, st1)
    /\ main DL W_ok two_tracks st1 = (Ok tt, st2)
    /\ fs st2 = fs st1
    /\ every_download DL W_ok skipped (triples two_tracks) (after_banner st1) = true
    /\ Forall no_collaborator_call (new_events st1 st2).
Proof.
  apply (C8_second_run_skips DL W_ok W_ok two_tracks (initial_state fs_root)).
  - vm_compute. reflexivity.
  - reflexivity.
Defined.

Lemma C9_witness :
  download DL W_ok "Daft Punk" "One More Time" "house" (Some "") (initial_state fs_root)
  = download DL W_ok "Daft Punk" "One More Time" "house" None (initial_state fs_root)
  /\ (forall q,
       ESearch q ∈ new_events (initial_state fs_root)
         (snd (download DL W_ok "Daft Punk" "One More Time" "house" (Some "")
                 (initial_state fs_root))) ->
       q = "Daft Punk One More Time")
  /\ ESearch "Daft Punk One More Time" ∈ new_events (initial_state fs_root)
       (snd (download DL W_ok "Daft Punk" "One More Time" "house" (Some "")
               (initial_state fs_root))).
Proof.
  destruct (C9_search_term DL W_ok "Daft Punk" "One More Time" "house"
              (initial_state fs_root)) as (Heq & _ & _ & _ & Hq & Hsent).
  split_and!; [exact Heq| |].
  - intros q H. exact (Hq (Some "") q H).
  - exact (Hsent (Some "") eq_refl).
Defined.

Lemma C10_witness :
  main DL W_ctrl_c one_track (initial_state fs_root)
  = (Raise (NameError "filename"),
     at_call "Daft Punk" "One More Time" "house" (after_banner (initial_state fs_root))).
Proof.
  destruct (C10_handler_uses_global DL W_ctrl_c "house" KeyboardInterrupt
              (initial_state fs_root)) as (_ & _ & _ & H).
  apply (H one_track "Daft Punk" "One More Time" []); reflexivity.
Defined.

(** C2 on the code: with no search result for the first of two tracks the
    run stops with [IndexError]; nothing is reported as a rejection and the
    second track is never tried. *)
Theorem C2_empty_results_fault :
  let st0 := initial_state fs_genre in
  let '(r, st') := main DL W_empty two_tracks st0 in
  r = Raise IndexError
  /\ calls (new_events st0 st') = [("house", "Daft Punk", "One More Time")]
  /\ new_events st0 st'
     = [EPrint "Download routine initialised.";
        ECall "Daft Punk" "One More Time" "house";
        EPrint ("Searching for " +:+ dq +:+ "Daft Punk - One More Time" +:+ dq +:+ "...");
        ESearch "Daft Punk One More Time"].
Proof. vm_compute. done. Qed.

(** C6 on the code: Ctrl-C arrives while the arguments of the first call
    are validated, with the intermediate file of that track left on disk by
    an earlier run.  The handler fails with [NameError]; it unlinks nothing,
    the intermediate file is still there and [exit()] is not reached. *)
Theorem C6_interrupt_before_assignment :
  let st0 := initial_state fs_leftover in
  let '(r, st') := main DL W_ctrl_c one_track st0 in
  r = Raise (NameError "filename")
  /\ is_file (fs st') (intermediate_path DL "Daft Punk" "One More Time" "house") = true
  /\ new_events st0 st'
     = [EPrint "Download routine initialised."; ECall "Daft Punk" "One More Time" "house"].
Proof. vm_compute. done. Qed.

(** The same window at a later call: the global still holds the file name
    of the previous track, so the handler unlinks that path; the
    intermediate file of the interrupted track stays. *)
Example interrupt_with_stale_global :
  let st0 := initial_state fs_leftover_second in
  let '(r, st') := main DL W_ctrl_c_second two_tracks st0 in
  r = Raise SystemExit
  /\ is_file (fs st') (intermediate_path DL "Daft Punk" "Around the World" "house") = true
  /\ EUnlink (intermediate_path DL "Daft Punk" "One More Time" "house") ∈ new_events st0 st'
  /\ EUnlink (intermediate_path DL "Daft Punk" "Around the World" "house") ∉ new_events st0 st'.
Proof.
  vm_compute. split_and!; [done..| |].
  - repeat first [apply list_elem_of_here | apply list_elem_of_further].
  - intros H. repeat (apply elem_of_cons in H as [H|H]; [discriminate H|]).
    by apply elem_of_nil in H.
Qed.

Lemma interrupted_in_body_witness :
  let st0 := after_banner (initial_state fs_genre) in
  let '(r, st') := batch DL W_reset (triples two_tracks) st0 in
  is_file (fs st') (intermediate_path DL "Daft Punk" "One More Time" "house") = false
  /\ r = Raise SystemExit
  /\ calls (new_events st0 st') = [("house", "Daft Punk", "One More Time")].
Proof.
  intros st0.
  pose proof (interrupted_in_body DL W_reset "house" "Daft Punk" "One More Time"
                [("house", "Daft Punk", "Around the World")] st0
                (snd (download DL W_reset "Daft Punk" "One More Time" "house" None
                        (at_call "Daft Punk" "One More Time" "house" st0)))
                (ConnectionResetError "Connection reset by peer")
                eq_refl ltac:(vm_compute; reflexivity)
                (or_intror (ex_intro _ "Connection reset by peer" eq_refl))) as H.
  change (triples two_tracks)
    with [("house", "Daft Punk", "One More Time"); ("house", "Daft Punk", "Around the World")].
  destruct (batch _ _ _ _) as [r st'] eqn:Hrun.
  destruct H as (Hfile & _ & _ & _).
  split; [exact Hfile|].
  vm_compute in Hrun. injection Hrun as <- <-. split; vm_compute; reflexivity.
Defined.
(** * Further properties *)

(** ** Durations as text *)

(** The decimal text of a number holds no letter ['m']. *)
Lemma pretty_N_char_not_m (x : N) : Ascii.eqb (pretty_N_char x) "m" = false.
Proof. unfold pretty_N_char. by repeat case_match. Qed.

Lemma pretty_N_go_free (x : N) (s : string) :
  free_of "m" s = true -> free_of "m" (pretty_N_go x s) = true.
Proof.
  revert s. induction (N.lt_wf_0 x) as [x _ IH]; intros s Hs.
  assert (x = 0 \/ 0 < x)%N as [->|Hx] by lia.
  - by rewrite pretty_N_go_0.
  - rewrite pretty_N_go_step by done. apply IH; [by apply N.div_lt|].
    simpl. by rewrite pretty_N_char_not_m.
Qed.

Lemma pretty_N_free (x : N) : free_of "m" (pretty x) = true.
Proof.
  unfold pretty, pretty_N. case_decide; [done|]. by apply pretty_N_go_free.
Qed.

Lemma pretty_Z_free (x : Z) : free_of "m" (pretty x) = true.
Proof.
  destruct x as [|p|p]; [done|apply pretty_N_free|].
  unfold pretty, pretty_Z. simpl. apply pretty_N_free.
Qed.

(** Two texts cut at their first [c] agree part by part. *)
Lemma app_inj_free (c : ascii) (u u' r r' : string) :
  free_of c u = true -> free_of c u' = true ->
  u +:+ String c r = u' +:+ String c r' -> u = u' /\ r = r'.
Proof.
  revert u'. induction u as [|a u IH]; intros [|a' u'] Hu Hu' Heq.
  - rewrite !app_nil_l in Heq. by injection Heq.
  - rewrite app_nil_l, app_cons in Heq. injection Heq as <- _.
    simpl in Hu'. by rewrite Ascii.eqb_refl in Hu'.
  - rewrite app_nil_l, app_cons in Heq. injection Heq as -> _.
    simpl in Hu. by rewrite Ascii.eqb_refl in Hu.
  - rewrite !app_cons in Heq. injection Heq as -> Heq.
    simpl in Hu, Hu'. apply andb_true_iff in Hu as [_ Hu].
    apply andb_true_iff in Hu' as [_ Hu'].
    destruct (IH u' Hu Hu' Heq) as [-> ->]. done.
Qed.

(** X2.  [seconds_to_mins] splits any number of seconds, negative ones
    included, into whole minutes (floor division by 60) and a rest of 0 to 59
    seconds, and writes them as 'Mm Ss'.  The text determines the duration:
    two durations with the same text are equal. *)
Theorem seconds_to_mins_reads_back (total_seconds other : Z) :
  (exists minutes seconds,
     seconds_to_mins total_seconds = pretty minutes +:+ "m " +:+ pretty seconds +:+ "s"
     /\ total_seconds = 60 * minutes + seconds
     /\ 0 <= seconds < 60)
  /\ (seconds_to_mins total_seconds = seconds_to_mins other -> total_seconds = other).
Proof.
  split.
  - exists (total_seconds / 60), (total_seconds - total_seconds / 60 * 60).
    split; [reflexivity|].
    pose proof (Z.mod_pos_bound total_seconds 60 eq_refl) as Hb.
    rewrite Z.mod_eq in Hb by done. lia.
  - unfold seconds_to_mins. cbv zeta. intros Heq.
    change ("m " +:+ ?x) with (String "m" (" " +:+ x)) in Heq.
    apply app_inj_free in Heq as [Hm Hs]; [|apply pretty_Z_free..].
    apply (inj pretty) in Hm.
    rewrite !app_cons, !app_nil_l in Hs. injection Hs as Hs.
    apply app_inj_end in Hs as [Hs _]; [|done].
    apply (inj pretty) in Hs. lia.
Qed.

(** ** The per-track operation, stage by stage *)

Section Pipeline.

Context (DOWNLOAD_PATH : string) (W : World).

Local Abbreviation dir_of d := (DOWNLOAD_PATH +:+ "/" +:+ d).
Local Abbreviation fname_of a t := (a +:+ " - " +:+ t +:+ ".mp4").

(** Close a branch in which the run has stopped, with an exception, before
    the download step. *)
Ltac early_stop :=
  try unfold raise;
  lazymatch goal with
  | |- (Raise _, _) = _ -> _ =>
      intros <-; left; do 2 eexists; split; [reflexivity|];
      split_and!;
      [ first
          [ exists []; split; [cbn [trace]; by rewrite List.app_nil_r | apply Forall_nil]
          | eexists; split;
            [ cbn [trace]; rewrite <- ?(assoc_L (++)); reflexivity
            | unfold no_download_or_transcode; cbn [app];
              by repeat first [apply Forall_nil | apply Forall_cons | split | reflexivity] ] ]
      | intros p Hp; cbn [fs]; rewrite ?lookup_insert_ne by done; reflexivity
      | first [exact I | by left | by right] ]
  end.

(** A run of [download] either stops before the download step, or passed
    every check with a top result and an audio stream, and is then the run
    of the remaining steps (download, transcode, unlink) from a state whose
    trace is known. *)
Lemma download_to_pipeline (a t d : string) (s : option string) (st : state)
    (res : result unit * state) :
  download DOWNLOAD_PATH W a t d s st = res ->
  (exists e st', res = (Raise e, st') /\ stopped_early (dir_of d) e st st')
  \/ (exists yt others title track_length audio_stream size_bytes file_size,
        search_answer DOWNLOAD_PATH W a t d s st = Returns (yt :: others)
        /\ yt_title yt = Returns title
        /\ yt_length yt = Returns track_length
        /\ (track_length >? TRACKLENGTH_UPPER_THRESHOLD) = false
        /\ yt_get_audio_only yt = Returns (Some audio_stream)
        /\ filesize audio_stream = Returns size_bytes
        /\ file_size_mb size_bytes = Ok file_size
        /\ float_lt_int file_size FILESIZE_LOWER_THRESHOLD = false
        /\ res =
           (Stream_download (Some audio_stream) (dir_of d) (fname_of a t) TIMEOUT_THRESHOLD ;;
            print "Download complete." ;;
            AudioFileClip W (intermediate_path DOWNLOAD_PATH a t d) ;;
            write_audiofile W (output_path_of DOWNLOAD_PATH a t d) ;;
            close W ;;
            unlink false (intermediate_path DOWNLOAD_PATH a t d))
           (mkState (fs (state_at_search DOWNLOAD_PATH a t d st))
                    (Some (fname_of a t))
                    (trace (state_at_search DOWNLOAD_PATH a t d st)
                     ++ [ESearch (effective_search_term a t s);
                         EPrint ("Obtained result: " +:+ dq +:+ title +:+ dq);
                         EPrint ("Track length: " +:+ seconds_to_mins track_length);
                         EGetAudioOnly "webm";
                         EPrintFileSize file_size;
                         EPrint "Downloading..."]))).
Proof.
  unfold stopped_early, search_answer, state_at_search.
  unfold download, Search, get_audio_only. cbv zeta.
  rewrite !file_path_eq.
  fold (intermediate_path DOWNLOAD_PATH a t d).
  fold (output_path_of DOWNLOAD_PATH a t d).
  rewrite bind_set_filename, bind_path_is_dir. cbn [fs filename trace].
  destruct (is_dir (fs st) (dir_of d)) eqn:Hd;
    [ rewrite bind_ret
    | rewrite bind_assoc, bind_print; unfold mkdir at 1;
      rewrite bind_assoc, bind_emit; cbn [fs filename trace];
      unfold bind at 1; cbn [fs filename trace];
      destruct (fs st !! dir_of d) eqn:Hlook; [by early_stop|];
      destruct (parent_is_dir (fs st) (dir_of d)) eqn:Hpar;
        [|destruct (under_file (fs st) (dir_of d)); by early_stop];
      cbn [put_fs fs filename trace] ].
  all: rewrite bind_path_is_file; cbn [fs filename trace].
  all: match goal with |- context [is_file ?m ?p] => destruct (is_file m p) eqn:Hf end;
       [by early_stop|].
  all: rewrite bind_print, bind_ask; cbn [fs filename trace].
  all: match goal with |- context [search_results W ?h ?q] =>
         destruct (search_results W h q) as [results|b] eqn:Hs end;
       cbn [result_of]; [|by early_stop].
  all: rewrite bind_item0; destruct results as [|yt others]; [by early_stop|].
  all: rewrite bind_lift; destruct (yt_title yt) as [title|b] eqn:Ht;
       cbn [result_of]; [|by early_stop].
  all: rewrite bind_print, bind_lift; destruct (yt_length yt) as [track_length|b] eqn:Hl;
       cbn [result_of]; [|by early_stop].
  all: rewrite bind_print; cbn [fs filename trace].
  all: destruct (track_length >? TRACKLENGTH_UPPER_THRESHOLD) eqn:Hgt; [by early_stop|].
  all: rewrite bind_ask; cbn [fs filename trace];
       destruct (yt_get_audio_only yt) as [audio_stream|b] eqn:Ha;
       cbn [result_of]; [|by early_stop].
  all: destruct audio_stream as [audio_stream|]; unfold stream_filesize;
       [|rewrite bind_raise; by early_stop].
  all: rewrite bind_lift; destruct (filesize audio_stream) as [size_bytes|b] eqn:Hsz;
       cbn [result_of]; [|by early_stop].
  all: rewrite bind_lift; destruct (file_size_mb size_bytes) as [file_size|e] eqn:Hmb;
       [|assert (e = OverflowError) as ->
           by (unfold file_size_mb in Hmb; destruct (PyFloat.of_int _); congruence);
         by early_stop].
  all: rewrite bind_emit; cbn [fs filename trace].
  all: destruct (float_lt_int file_size FILESIZE_LOWER_THRESHOLD) eqn:Hlt; [by early_stop|].
  all: rewrite bind_print; cbn [fs filename trace].
  all: intros <-; right.
  all: exists yt, others, title, track_length, audio_stream, size_bytes, file_size.
  all: split_and!; try done.
  all: by rewrite <- ?(assoc_L (++)).
Qed.

(** A collaborator that writes the file at [p] returns with the file in
    place, or raises an exception of its own; other paths are untouched. *)
Lemma perform_io_result (p : string) (o : io_outcome) (st : state) :
  perform_io p o st
    = (Ok tt, mkState (<[p := File]> (fs st)) (filename st) (trace st))
  \/ exists (b : builtin_exn) m',
       perform_io p o st = (Raise b, mkState m' (filename st) (trace st))
       /\ (forall q, q <> p -> m' !! q = fs st !! q).
Proof.
  destruct st as [m f tr]. unfold perform_io, create_file, try_except, bind, put_fs, raise, ret.
  cbn [fs filename trace].
  destruct o as [|[] e]; cbn [fs filename trace];
    destruct (m !! p) as [[]|]; try destruct (parent_is_dir m p);
    try destruct (under_file m p);
    cbn [fs filename trace];
    first [ by left
          | right; do 2 eexists; split; [reflexivity|];
            intros q Hq; cbn [fs]; by rewrite ?lookup_insert_ne ].
Qed.

(** Split on the outcome of the collaborator that writes [p]. *)
Ltac io_step p :=
  lazymatch goal with
  | |- context [perform_io p ?o ?s] =>
      let b := fresh "b" in
      let m' := fresh "m'" in
      let Hio := fresh "Hio" in
      let Hfr := fresh "Hfr" in
      destruct (perform_io_result p o s) as [Hio|(b & m' & Hio & Hfr)];
      rewrite Hio; cbn [fs filename trace] in *
  end.

(** An event is not in an explicit list of other events. *)
Ltac in_list :=
  let H := fresh in
  intros H; cbn [app] in H;
  repeat (apply elem_of_cons in H as [H|H]; [discriminate H|]);
  by apply elem_of_nil in H.

(** The download and transcode steps: the run ends normally with the five
    events that follow the download call, or raises a builtin exception
    before the intermediate file is unlinked; once the transcoder has been
    started the intermediate file is on disk. *)
Lemma pipeline_cases (a t d : string) (audio_stream : Stream) (st : state) :
  let inter := intermediate_path DOWNLOAD_PATH a t d in
  let out := output_path_of DOWNLOAD_PATH a t d in
  let '(r, st') :=
    (Stream_download (Some audio_stream) (dir_of d) (fname_of a t) TIMEOUT_THRESHOLD ;;
     print "Download complete." ;;
     AudioFileClip W inter ;;
     write_audiofile W out ;;
     close W ;;
     unlink false inter) st in
  exists evs,
    trace st' = trace st ++ EDownload (dir_of d) (fname_of a t) TIMEOUT_THRESHOLD :: evs
    /\ match r with
       | Ok _ =>
           evs = [EPrint "Download complete."; EAudioFileClip inter;
                  EWriteAudiofile out; EClose; EUnlink inter]
       | Raise e =>
           (exists b : builtin_exn, e = b)
           /\ (EUnlink inter ∉ evs)
           /\ (EAudioFileClip inter ∈ evs -> fs st' !! inter = Some File)
       end.
Proof.
  intros inter out.
  assert (Hne : out <> inter) by apply output_is_not_intermediate.
  unfold Stream_download, AudioFileClip, write_audiofile, close, unlink.
  rewrite file_path_eq. fold inter.
  rewrite bind_assoc, bind_emit. cbn [fs filename trace].
  unfold bind at 1. io_step inter.
  2:{ exists []. split; [done|]. split_and!; [eauto|in_list..]. }
  rewrite bind_print, bind_ask. cbn [fs filename trace].
  destruct (open_clip W _ inter) as [b|]; cbn [of_failure].
  { eexists. split; [by rewrite <- !(assoc_L (++))|].
    split_and!; [eauto|in_list|intros _; cbn [fs]; apply lookup_insert_eq]. }
  rewrite bind_assoc, bind_emit. cbn [fs filename trace].
  unfold bind at 1. io_step out.
  2:{ eexists. split; [by rewrite <- !(assoc_L (++))|].
      split_and!; [eauto|in_list|intros _]. cbn [fs].
      rewrite Hfr by done. apply lookup_insert_eq. }
  rewrite bind_ask. cbn [fs filename trace].
  destruct (close_clip W _) as [b|]; cbn [of_failure].
  { eexists. split; [by rewrite <- !(assoc_L (++))|].
    split_and!; [eauto|in_list|intros _]. cbn [fs].
    rewrite lookup_insert_ne by done. apply lookup_insert_eq. }
  unfold bind, emit. cbn [fs filename trace].
  rewrite lookup_insert_ne by done. rewrite lookup_insert_eq.
  cbn [put_fs fs filename trace].
  eexists. split; [by rewrite <- !(assoc_L (++))|]. done.
Qed.

(** X3.  A run that raises [TrackObtainError] does so with one of the two
    messages of the duration and size checks.  It has called neither the
    download nor the transcode collaborator, and it has changed nothing in
    the file system except, possibly, that it made the target directory,
    which exists afterwards. *)
Theorem download_rejection (artist track_title target_dir : string)
    (search_term : option string) (st st' : state) (msg : string) :
  download DOWNLOAD_PATH W artist track_title target_dir search_term st
    = (Raise (TrackObtainError msg), st') ->
  (msg = "Unexpectedly long track. Skipping..."
   \/ msg = "Unexpectedly small file size. Skipping...")
  /\ Forall no_download_or_transcode (new_events st st')
  /\ (forall p, p <> DOWNLOAD_PATH +:+ "/" +:+ target_dir -> fs st' !! p = fs st !! p)
  /\ is_dir (fs st') (DOWNLOAD_PATH +:+ "/" +:+ target_dir) = true.
Proof.
  rename artist into a, track_title into t, target_dir into d, search_term into s.
  intros Hrun.
  pose proof (download_leaves_dir DOWNLOAD_PATH W a t d s st) as Hdir.
  rewrite Hrun in Hdir.
  destruct (download_to_pipeline a t d s st _ Hrun)
    as [(e & st1 & [= <- <-] & (evs & Htr & Hall) & Hfs & Hmsg)
       |(yt & others & title & len & audio & size & x & _ & _ & _ & _ & _ & _ & _ & _ & Heq)].
  - split_and!; [done| |done|].
    + by rewrite (new_events_app _ _ _ Htr).
    + destruct Hdir as [?|[[?|[?|?]] _]]; [done|discriminate..].
  - pose proof (pipeline_cases a t d audio
      (mkState (fs (state_at_search DOWNLOAD_PATH a t d st)) (Some (fname_of a t))
         (trace (state_at_search DOWNLOAD_PATH a t d st)
          ++ [ESearch (effective_search_term a t s);
              EPrint ("Obtained result: " +:+ dq +:+ title +:+ dq);
              EPrint ("Track length: " +:+ seconds_to_mins len);
              EGetAudioOnly "webm"; EPrintFileSize x; EPrint "Downloading..."]))) as Hp.
    cbv zeta in Hp. rewrite <- Heq in Hp.
    destruct Hp as (evs & _ & (b & [=]) & _).
Qed.

(** What the run has recorded when the download step starts. *)
Lemma trace_to_pipeline (a t d : string) (s : option string) (st : state)
    (title : string) (len : Z) (x : spec_float) :
  trace (state_at_search DOWNLOAD_PATH a t d st)
  ++ [ESearch (effective_search_term a t s);
      EPrint ("Obtained result: " +:+ dq +:+ title +:+ dq);
      EPrint ("Track length: " +:+ seconds_to_mins len);
      EGetAudioOnly "webm"; EPrintFileSize x; EPrint "Downloading..."]
  = trace st ++
    (if is_dir (fs st) (dir_of d) then []
     else [EPrint ("Directory " +:+ d +:+ " does not exist in " +:+ DOWNLOAD_PATH
                   +:+ ". Creating...");
           EMkdir (dir_of d)])
    ++ [EPrint ("Searching for " +:+ dq +:+ a +:+ " - " +:+ t +:+ dq +:+ "...");
        ESearch (effective_search_term a t s);
        EPrint ("Obtained result: " +:+ dq +:+ title +:+ dq);
        EPrint ("Track length: " +:+ seconds_to_mins len);
        EGetAudioOnly "webm"; EPrintFileSize x; EPrint "Downloading..."].
Proof.
  unfold state_at_search. cbn [trace].
  destruct (is_dir (fs st) (dir_of d)); by rewrite <- !(assoc_L (++)).
Qed.

(** X6.  A run that returns normally got a non-empty answer to its search
    and read the title and the length of the top result, its audio stream
    and the size of that stream; it has recorded exactly these events, in
    this order: the announcement and the creation of the target directory
    when it was missing; the search announcement and one search with the
    effective query; the title and the length of the top result; the request
    for the audio stream and the rounded size of the stream; the download
    into the target directory under 'artist - title.mp4' with the timeout of
    30; then the three transcode calls on the intermediate and output paths
    and the unlink of the intermediate file.  The top result was at most 900
    seconds long and the rounded size was not below the threshold. *)
Theorem download_success_trace (artist track_title target_dir : string)
    (search_term : option string) (st st' : state) :
  download DOWNLOAD_PATH W artist track_title target_dir search_term st = (Ok tt, st') ->
  exists yt others title track_length audio_stream size_bytes file_size,
    search_answer DOWNLOAD_PATH W artist track_title target_dir search_term st
      = Returns (yt :: others)
    /\ yt_title yt = Returns title
    /\ yt_length yt = Returns track_length
    /\ yt_get_audio_only yt = Returns (Some audio_stream)
    /\ filesize audio_stream = Returns size_bytes
    /\ file_size_mb size_bytes = Ok file_size
    /\ new_events st st' =
      (if is_dir (fs st) (DOWNLOAD_PATH +:+ "/" +:+ target_dir) then []
       else [EPrint ("Directory " +:+ target_dir +:+ " does not exist in "
                     +:+ DOWNLOAD_PATH +:+ ". Creating...");
             EMkdir (DOWNLOAD_PATH +:+ "/" +:+ target_dir)])
      ++ [EPrint ("Searching for " +:+ dq +:+ artist +:+ " - " +:+ track_title
                  +:+ dq +:+ "...");
          ESearch (effective_search_term artist track_title search_term);
          EPrint ("Obtained result: " +:+ dq +:+ title +:+ dq);
          EPrint ("Track length: " +:+ seconds_to_mins track_length);
          EGetAudioOnly "webm";
          EPrintFileSize file_size;
          EPrint "Downloading...";
          EDownload (DOWNLOAD_PATH +:+ "/" +:+ target_dir)
                    (artist +:+ " - " +:+ track_title +:+ ".mp4") TIMEOUT_THRESHOLD;
          EPrint "Download complete.";
          EAudioFileClip (intermediate_path DOWNLOAD_PATH artist track_title target_dir);
          EWriteAudiofile (output_path_of DOWNLOAD_PATH artist track_title target_dir);
          EClose;
          EUnlink (intermediate_path DOWNLOAD_PATH artist track_title target_dir)]
    /\ track_length <= TRACKLENGTH_UPPER_THRESHOLD
    /\ float_lt_int file_size FILESIZE_LOWER_THRESHOLD = false.
Proof.
  rename artist into a, track_title into t, target_dir into d, search_term into s.
  intros Hrun.
  destruct (download_to_pipeline a t d s st _ Hrun)
    as [(e & st1 & [=] & _)
       |(yt & others & title & len & audio & size & x
         & Hsearch & Htitle & Hlen & Hgt & Haudio & Hsize & Hmb & Hlt & Heq)].
  pose proof (pipeline_cases a t d audio
    (mkState (fs (state_at_search DOWNLOAD_PATH a t d st)) (Some (fname_of a t))
       (trace (state_at_search DOWNLOAD_PATH a t d st)
        ++ [ESearch (effective_search_term a t s);
            EPrint ("Obtained result: " +:+ dq +:+ title +:+ dq);
            EPrint ("Track length: " +:+ seconds_to_mins len);
            EGetAudioOnly "webm"; EPrintFileSize x; EPrint "Downloading..."]))) as Hp.
  cbv zeta in Hp. rewrite <- Heq in Hp.
  destruct Hp as (evs & Htr & ->). cbn [trace] in Htr.
  exists yt, others, title, len, audio, size, x.
  split_and!; [done..| |rewrite Z.gtb_ltb in Hgt; by apply Z.ltb_ge in Hgt|done].
  apply new_events_app. rewrite Htr, trace_to_pipeline.
  by rewrite <- !(assoc_L (++)).
Qed.

(** X4.  [download] has no clean-up of its own.  When a run raises after
    the transcoder has been started (the [AudioFileClip] call is among its
    events), the exception is a builtin one, the intermediate file has not
    been unlinked, and it is on disk when the exception leaves the
    function. *)
Theorem failed_run_leaves_intermediate (artist track_title target_dir : string)
    (search_term : option string) (st st' : state) (e : exn) :
  download DOWNLOAD_PATH W artist track_title target_dir search_term st = (Raise e, st') ->
  EAudioFileClip (intermediate_path DOWNLOAD_PATH artist track_title target_dir)
    ∈ new_events st st' ->
  is_file (fs st') (intermediate_path DOWNLOAD_PATH artist track_title target_dir) = true
  /\ (EUnlink (intermediate_path DOWNLOAD_PATH artist track_title target_dir)
       ∉ new_events st st')
  /\ exists b : builtin_exn, e = b.
Proof.
  rename artist into a, track_title into t, target_dir into d, search_term into s.
  intros Hrun.
  destruct (download_to_pipeline a t d s st _ Hrun)
    as [(e1 & st1 & [= <- <-] & (evs & Htr & Hall) & _)
       |(yt & others & title & len & audio & size & x & _ & _ & _ & _ & _ & _ & _ & _ & Heq)].
  - rewrite (new_events_app _ _ _ Htr). intros Hin.
    rewrite Forall_forall in Hall. by destruct (Hall _ Hin) as [_ ?].
  - pose proof (pipeline_cases a t d audio
      (mkState (fs (state_at_search DOWNLOAD_PATH a t d st)) (Some (fname_of a t))
         (trace (state_at_search DOWNLOAD_PATH a t d st)
          ++ [ESearch (effective_search_term a t s);
              EPrint ("Obtained result: " +:+ dq +:+ title +:+ dq);
              EPrint ("Track length: " +:+ seconds_to_mins len);
              EGetAudioOnly "webm"; EPrintFileSize x; EPrint "Downloading..."]))) as Hp.
    cbv zeta in Hp. rewrite <- Heq in Hp.
    destruct Hp as (evs & Htr & Hb & Hno & Hfile). cbn [trace] in Htr.
    rewrite trace_to_pipeline, <- !(assoc_L (++)) in Htr.
    rewrite (new_events_app _ _ _ Htr).
    assert (Hsplit : forall ev : event,
      is_download ev = false -> is_search ev = false ->
      (forall msg, ev <> EPrint msg) -> (forall y, ev <> EPrintFileSize y) ->
      ev <> EMkdir (dir_of d) -> ev <> EGetAudioOnly "webm" ->
      ev ∈ (if is_dir (fs st) (dir_of d) then []
            else [EPrint ("Directory " +:+ d +:+ " does not exist in " +:+ DOWNLOAD_PATH
                          +:+ ". Creating...");
                  EMkdir (dir_of d)])
           ++ [EPrint ("Searching for " +:+ dq +:+ a +:+ " - " +:+ t +:+ dq +:+ "...");
               ESearch (effective_search_term a t s);
               EPrint ("Obtained result: " +:+ dq +:+ title +:+ dq);
               EPrint ("Track length: " +:+ seconds_to_mins len);
               EGetAudioOnly "webm"; EPrintFileSize x; EPrint "Downloading..."]
           ++ EDownload (dir_of d) (fname_of a t) TIMEOUT_THRESHOLD :: evs ->
      ev ∈ evs).
    { intros ev H1 H2 H3 H4 H5 H6 Hin.
      apply elem_of_app in Hin as [Hin|Hin].
      { destruct (is_dir (fs st) (dir_of d)).
        - by apply elem_of_nil in Hin.
        - repeat (apply elem_of_cons in Hin as [->|Hin];
                  [exfalso; first [exact (H3 _ eq_refl) | exact (H5 eq_refl)]|]).
          by apply elem_of_nil in Hin. }
      cbn [app] in Hin.
      repeat (apply elem_of_cons in Hin as [->|Hin];
              [exfalso;
               first [exact (H3 _ eq_refl) | exact (H4 _ eq_refl) | exact (H6 eq_refl)
                     | discriminate H1 | discriminate H2]|]).
      done. }
    intros Hin. split_and!; [|intros Hin'|done].
    + apply is_file_Some, Hfile. by apply Hsplit.
    + apply Hno. by apply Hsplit.
Qed.

(** Under a download root that is a directory, a target directory named
    without a separator can be made. *)
Lemma parent_is_dir_target (m : gmap string node) (d : string) :
  rsplit sep d = None -> is_dir m DOWNLOAD_PATH = true ->
  parent_is_dir m (dir_of d) = true.
Proof.
  intros Hd Hroot. unfold parent_is_dir, parent.
  rewrite sep_app, rsplit_app_sep, Hd. cbn [dir_or_root].
  by destruct DOWNLOAD_PATH.
Qed.

(** X5.  When the target directory is missing, the run first announces
    and attempts its creation.  If a regular file has the directory's path,
    the run stops there with [FileExistsError]; if the path is free but has
    no parent directory, with [NotADirectoryError] when a regular file stands
    in the path and with [FileNotFoundError] when none does and the parent
    does not exist ([mkdir] is called without [parents]); in these cases
    nothing else is recorded and the file system is as it was.  If the path
    is free, the download root is a directory and the name of the target
    directory holds no separator, the directory exists after the run,
    whatever its outcome. *)
Theorem download_missing_directory (artist track_title target_dir : string)
    (search_term : option string) (st : state) :
  is_dir (fs st) (DOWNLOAD_PATH +:+ "/" +:+ target_dir) = false ->
  let '(r, st') := download DOWNLOAD_PATH W artist track_title target_dir search_term st in
  exists evs,
    new_events st st' =
      EPrint ("Directory " +:+ target_dir +:+ " does not exist in " +:+ DOWNLOAD_PATH
              +:+ ". Creating...")
      :: EMkdir (DOWNLOAD_PATH +:+ "/" +:+ target_dir) :: evs
    /\ (fs st !! (DOWNLOAD_PATH +:+ "/" +:+ target_dir) = Some File ->
        r = Raise FileExistsError /\ fs st' = fs st /\ evs = [])
    /\ (fs st !! (DOWNLOAD_PATH +:+ "/" +:+ target_dir) = None ->
        parent_is_dir (fs st) (DOWNLOAD_PATH +:+ "/" +:+ target_dir) = false ->
        under_file (fs st) (DOWNLOAD_PATH +:+ "/" +:+ target_dir) = true ->
        r = Raise NotADirectoryError /\ fs st' = fs st /\ evs = [])
    /\ (forall h,
          fs st !! (DOWNLOAD_PATH +:+ "/" +:+ target_dir) = None ->
          parent (DOWNLOAD_PATH +:+ "/" +:+ target_dir) = Some h ->
          h <> "" -> fs st !! h = None ->
          under_file (fs st) (DOWNLOAD_PATH +:+ "/" +:+ target_dir) = false ->
          r = Raise FileNotFoundError /\ fs st' = fs st /\ evs = [])
    /\ (fs st !! (DOWNLOAD_PATH +:+ "/" +:+ target_dir) = None ->
        is_dir (fs st) DOWNLOAD_PATH = true ->
        rsplit sep target_dir = None ->
        is_dir (fs st') (DOWNLOAD_PATH +:+ "/" +:+ target_dir) = true).
Proof.
  rename artist into a, track_title into t, target_dir into d, search_term into s.
  intros Hd.
  destruct (download _ _ _ _ _ _ _) as [r st'] eqn:Hrun. revert Hrun.
  unfold download. cbv zeta. rewrite !file_path_eq.
  fold (intermediate_path DOWNLOAD_PATH a t d).
  fold (output_path_of DOWNLOAD_PATH a t d).
  rewrite bind_set_filename, bind_path_is_dir. cbn [fs filename trace].
  rewrite Hd, bind_assoc, bind_print. unfold mkdir at 1.
  rewrite bind_assoc, bind_emit. cbn [fs filename trace].
  unfold bind at 1. cbn [fs filename trace].
  destruct (fs st !! dir_of d) as [n|] eqn:Hlook.
  { intros [= <- <-]. exists []. split_and!; [|done..].
    apply new_events_app. cbn [trace]. by rewrite <- (assoc_L (++)). }
  destruct (parent_is_dir (fs st) (dir_of d)) eqn:Hpar.
  2:{ destruct (under_file (fs st) (dir_of d)) eqn:Hunder;
        intros [= <- <-]; exists [];
        (split_and!;
           [ apply new_events_app; cbn [trace]; by rewrite <- (assoc_L (++))
           | done | done | done
           | intros _ Hroot Hsep; by rewrite parent_is_dir_target in Hpar ]). }
  cbn [put_fs fs filename trace].
  match goal with |- ?m ?s0 = _ -> _ =>
    assert (Hk : keeps (step_rel
      (download_emits DOWNLOAD_PATH a t d s)
      (fs_step (dir_of d) (intermediate_path DOWNLOAD_PATH a t d)
               (output_path_of DOWNLOAD_PATH a t d))
      (fn_step (fname_of a t))) m) by keeps_footprint;
    intros Hrun; specialize (Hk s0); rewrite Hrun in Hk
  end.
  destruct Hk as [(evs & Htr & _) Hfs _]. cbn [snd fs trace] in *.
  exists evs. split_and!; [|done|done| |].
  - apply new_events_app. by rewrite Htr, <- !(assoc_L (++)).
  - intros h _ Hh Hne Hnone _. exfalso. revert Hpar.
    unfold parent_is_dir. rewrite Hh. destruct h; [done|].
    cbn [dir_or_root]. unfold is_dir. by rewrite Hnone.
  - intros _ _ _. apply is_dir_Some. eapply fs_step_dir_kept; [done|].
    apply lookup_insert_eq.
Qed.

(** X7.  The already-downloaded check trusts the file name alone.  After
    a run that returned normally, a later request for the same target
    directory whose 'artist - title.mp4' text is the same (the same request,
    or another split of that text into artist and title), made in any state
    with the file system the first run left and whatever the collaborators
    would answer, raises [TrackAlreadyDownloaded]; it sets the global and
    records no event. *)
Theorem download_again_skips (W' : World)
    (artist track_title target_dir artist' track_title' : string)
    (search_term search_term' : option string) (st st1 st2 : state) :
  download DOWNLOAD_PATH W artist track_title target_dir search_term st = (Ok tt, st1) ->
  artist' +:+ " - " +:+ track_title' +:+ ".mp4"
    = artist +:+ " - " +:+ track_title +:+ ".mp4" ->
  fs st2 = fs st1 ->
  exists msg,
    download DOWNLOAD_PATH W' artist' track_title' target_dir search_term' st2
    = (Raise (TrackAlreadyDownloaded msg),
       mkState (fs st2) (Some (artist +:+ " - " +:+ track_title +:+ ".mp4")) (trace st2)).
Proof.
  rename artist into a, track_title into t, target_dir into d, search_term into s.
  rename artist' into a', track_title' into t', search_term' into s'.
  intros Hrun Hname Hfs.
  pose proof (download_leaves_dir DOWNLOAD_PATH W a t d s st) as Hdir.
  rewrite Hrun in Hdir. destruct Hdir as [Hdir|[[?|[?|?]] _]]; [|discriminate..].
  destruct (download_success_files DOWNLOAD_PATH W a t d s st st1 Hrun) as [Hout _].
  assert (Hsame : output_path_of DOWNLOAD_PATH a' t' d = output_path_of DOWNLOAD_PATH a t d).
  { unfold output_path_of, intermediate_path. by rewrite Hname. }
  rewrite <- Hname.
  apply download_skips.
  - by rewrite Hfs.
  - rewrite Hfs, Hsame. by apply is_file_Some.
Qed.

End Pipeline.

(** ** What the batch keeps of the file system *)

Section KeepsRel.

Context (R : relation state) `{!PreOrder R}.

Lemma keeps_rel_bind {A B} (m : M A) (k : A -> M B) :
  keeps R m -> (forall a, keeps R (k a)) -> keeps R (bind m k).
Proof.
  intros Hm Hk st. unfold bind. specialize (Hm st).
  destruct (m st) as [[a|e] st1]; simpl in *; [|done].
  etrans; [exact Hm | apply Hk].
Qed.

Lemma keeps_rel_try_except {A} (m : M A) (h : exn -> option (M A)) :
  keeps R m -> (forall e k, h e = Some k -> keeps R k) -> keeps R (try_except m h).
Proof.
  intros Hm Hh st. unfold try_except. specialize (Hm st).
  destruct (m st) as [[a|e] st1]; simpl in *; [done|].
  destruct (h e) as [k|] eqn:He; [|done].
  etrans; [exact Hm | by eapply Hh].
Qed.

Lemma keeps_rel_for_each {A} (l : list A) (body : A -> M unit) :
  (forall x, keeps R (body x)) -> keeps R (for_each l body).
Proof.
  intros H. induction l as [|x l IH]; simpl.
  - intros st. reflexivity.
  - apply keeps_rel_bind; [apply H | intros _; apply IH].
Qed.

End KeepsRel.

Global Instance keeps_files_preorder (D : string) : PreOrder (keeps_files D).
Proof.
  split.
  - intros st H. split; [done|reflexivity].
  - intros s1 s2 s3 H12 H23 H1.
    destruct (H12 H1) as [H2 K12]. destruct (H23 H2) as [H3 K23].
    split; [done|by etrans].
Qed.

(** A piece that leaves the global and the file system alone. *)
Lemma keeps_files_same (D : string) (st st' : state) :
  filename st' = filename st -> fs st' = fs st -> keeps_files D st st'.
Proof. intros Hf Hm H. rewrite Hf, Hm. split; [done|reflexivity]. Qed.

Lemma keeps_files_step (D a t d : string) (P : event -> Prop) (st st' : state) :
  step_rel P (fs_step (D +:+ "/" +:+ d) (intermediate_path D a t d) (output_path_of D a t d))
           (fn_step (a +:+ " - " +:+ t +:+ ".mp4")) st st' ->
  keeps_files D st st'.
Proof.
  intros [_ Hfs Hfn] H. split.
  - destruct Hfn as [->| ->]; [done|]. simpl. eauto.
  - by eapply fs_step_kept.
Qed.

Lemma kept_delete_intermediate (D a t d : string) (m : gmap string node) :
  m !! intermediate_path D a t d = Some File ->
  kept D m (delete (intermediate_path D a t d) m).
Proof.
  intros Hm. split.
  - intros p Hp. rewrite lookup_delete_ne; [done|]. intros <-. congruence.
  - intros p Hs Hp. rewrite lookup_delete_ne; [done|]. intros <-. by eapply Hs.
Qed.

Section MainKeeps.

Context (DOWNLOAD_PATH : string) (W : World).

Lemma cleanup_keeps_files (genre : string) (e : exn) :
  keeps (keeps_files DOWNLOAD_PATH) (cleanup_and_exit DOWNLOAD_PATH genre e).
Proof.
  intros st Hn. destruct (filename st) as [f|] eqn:Hf.
  2:{ rewrite cleanup_unbound by done. simpl. rewrite Hf. split; [done|reflexivity]. }
  destruct Hn as (a & t & ->).
  assert (Hrun : cleanup_and_exit DOWNLOAD_PATH genre e st =
    (unlink true (intermediate_path DOWNLOAD_PATH a t genre) ;;
     print ("Exception raised: " +:+ str_exn e) ;;
     print "Breaking..." ;; emit EExit ;; raise SystemExit) st).
  { unfold cleanup_and_exit, get_filename. unfold bind at 1. by rewrite Hf. }
  rewrite Hrun.
  match goal with |- context [snd (?m st)] =>
    assert (Hk : keeps (step_rel any_event (kept DOWNLOAD_PATH) eq) m) end.
  { repeat first
      [ kapply keeps_raise
      | kapply keeps_print; [exact I]
      | kapply keeps_emit; [exact I]
      | kapply keeps_unlink; [exact I | apply kept_delete_intermediate]
      | kapply keeps_bind; [|intros ?] ]. }
  destruct (Hk st) as [_ Hfs Hfn]. rewrite <- Hfn, Hf. split; [simpl; eauto|done].
Qed.

Lemma attempt_keeps_files (g a t : string) :
  keeps (keeps_files DOWNLOAD_PATH) (attempt DOWNLOAD_PATH W g a t).
Proof.
  unfold attempt. apply keeps_rel_try_except; [apply _| |].
  - apply keeps_rel_bind; [apply _| |].
    + unfold download_validated, validate_arguments.
      apply keeps_rel_bind; [apply _| |intros _].
      { intros st. by apply keeps_files_same. }
      apply keeps_rel_bind; [apply _| |intros pending].
      { intros st. by apply keeps_files_same. }
      destruct pending; [intros st; by apply keeps_files_same|].
      intros st. eapply keeps_files_step. apply download_footprint.
    + intros _. simpl. intros st. by apply keeps_files_same.
  - intros e k Hh. destruct e as [msg|msg|b]; simpl in Hh.
    + injection Hh as <-. intros st. by apply keeps_files_same.
    + injection Hh as <-. intros st. by apply keeps_files_same.
    + destruct b; simplify_eq; apply cleanup_keeps_files.
Qed.

Lemma main_keeps (tracks : list (string * list (string * list string))) :
  keeps (keeps_files DOWNLOAD_PATH) (main DOWNLOAD_PATH W tracks).
Proof.
  unfold main.
  apply keeps_rel_bind; [apply _| |intros _].
  { intros st. by apply keeps_files_same. }
  apply keeps_rel_bind; [apply _| |intros _].
  2:{ intros st. by apply keeps_files_same. }
  apply keeps_rel_for_each; [apply _|]. intros [genre tracks_dict].
  apply keeps_rel_for_each; [apply _|]. intros [artist titles].
  apply keeps_rel_for_each; [apply _|]. intros track_title.
  apply attempt_keeps_files.
Qed.

(** X8.  Whatever the collaborators do, failures and interruptions
    included, a batch run from a state in which the global is unbound or
    holds the file name of a request never removes a directory and never
    removes a file other than the intermediate '.mp4' file of some request;
    in particular every output file that was there is still there. *)
Theorem main_keeps_files (tracks : list (string * list (string * list string)))
    (st : state) :
  names_request (filename st) ->
  let st' := snd (main DOWNLOAD_PATH W tracks st) in
  (forall p, fs st !! p = Some Dir -> fs st' !! p = Some Dir)
  /\ (forall p, survives DOWNLOAD_PATH p -> fs st !! p = Some File -> fs st' !! p = Some File)
  /\ (forall a t d,
        is_file (fs st) (output_path_of DOWNLOAD_PATH a t d) = true ->
        is_file (fs st') (output_path_of DOWNLOAD_PATH a t d) = true)
  /\ names_request (filename st').
Proof.
  intros Hn st'. destruct (main_keeps tracks st Hn) as [Hn' [Hd Hf]].
  split_and!; [done..| |done].
  intros a t d H. apply is_file_Some, Hf; [apply output_survives|by apply is_file_Some].
Qed.

End MainKeeps.

(** ** Which exceptions leave the batch *)

Lemma raises_try_except {A} (E : exn -> Prop) (m : M A) (h : exn -> option (M A)) :
  (forall e, h e = None -> E e) ->
  (forall e k, h e = Some k -> raises_only E k) ->
  raises_only E (try_except m h).
Proof.
  intros Hnone Hsome st e. unfold try_except.
  destruct (m st) as [[a|e'] st1]; simpl; [intros [=]|].
  destruct (h e') as [k|] eqn:He.
  - by eapply Hsome.
  - simpl. intros [= <-]. by apply Hnone.
Qed.

Lemma raises_for_each {A} (E : exn -> Prop) (l : list A) (body : A -> M unit) :
  (forall x, raises_only E (body x)) -> raises_only E (for_each l body).
Proof.
  intros H. induction l as [|x l IH]; simpl.
  - apply raises_ret.
  - apply raises_bind; [apply H | intros _; apply IH].
Qed.

Lemma raises_get_filename (E : exn -> Prop) :
  E (NameError "filename") -> raises_only E get_filename.
Proof.
  intros H st e. unfold get_filename. destruct (filename st); simpl; intros [= <-]. done.
Qed.

Section MainRaises.

Context (DOWNLOAD_PATH : string) (W : World).

Lemma escapes_main_builtin (b : builtin_exn) : escapes_main b = true.
Proof. reflexivity. Qed.

(** The handler raises builtin exceptions only. *)
Lemma cleanup_raises (genre : string) (e : exn) :
  raises_only (fun x => escapes_main x = true) (cleanup_and_exit DOWNLOAD_PATH genre e).
Proof.
  unfold cleanup_and_exit.
  apply raises_bind; [by apply raises_get_filename|intros f].
  raises_auto escapes_main_builtin.
Qed.

Lemma attempt_raises (g a t : string) :
  raises_only (fun e => escapes_main e = true) (attempt DOWNLOAD_PATH W g a t).
Proof.
  unfold attempt. apply raises_try_except.
  - by intros [msg|msg|b].
  - intros e k Hh. destruct e as [msg|msg|b]; simpl in Hh.
    + injection Hh as <-. apply raises_print.
    + injection Hh as <-. apply raises_ret.
    + assert (k = cleanup_and_exit DOWNLOAD_PATH g b) as -> by (destruct b; by simplify_eq).
      apply cleanup_raises.
Qed.

(** X9.  Neither of this module's two exceptions ever leaves [main]:
    [TrackAlreadyDownloaded] and [TrackObtainError] are handled inside the
    loop, each by its own [except] clause, so whatever [main] raises is a
    builtin exception. *)
Theorem main_raises (tracks : list (string * list (string * list string)))
    (st : state) (e : exn) :
  fst (main DOWNLOAD_PATH W tracks st) = Raise e -> escapes_main e = true.
Proof.
  revert st e. change (raises_only (fun e => escapes_main e = true) (main DOWNLOAD_PATH W tracks)).
  unfold main.
  apply raises_bind; [apply raises_print|intros _].
  apply raises_bind; [|intros _; apply raises_print].
  apply raises_for_each. intros [genre tracks_dict].
  apply raises_for_each. intros [artist titles].
  apply raises_for_each. intros track_title.
  apply attempt_raises.
Qed.

End MainRaises.

(** ** The outcome of the batch, from the outcomes of its calls *)

Section MainResult.

Context (DOWNLOAD_PATH : string) (W : World).

Lemma handlers_other (genre : string) (b : builtin_exn) :
  interruption b = false -> handlers DOWNLOAD_PATH genre b = None.
Proof. by destruct b. Qed.

Lemma handlers_interruption_b (genre : string) (b : builtin_exn) :
  interruption b = true ->
  handlers DOWNLOAD_PATH genre b = Some (cleanup_and_exit DOWNLOAD_PATH genre b).
Proof. by destruct b. Qed.

(** One iteration, by the result of its call. *)
Lemma attempt_by_outcome (g a t : string) (st : state) :
  let '(r, st1) := download_validated DOWNLOAD_PATH W a t g None st in
  attempt DOWNLOAD_PATH W g a t st =
  match r with
  | Ok _ | Raise (TrackAlreadyDownloaded _) => (Ok tt, st1)
  | Raise (TrackObtainError msg) =>
      (Ok tt, mkState (fs st1) (filename st1) (trace st1 ++ [EPrint msg]))
  | Raise (Builtin b) =>
      if interruption b then cleanup_and_exit DOWNLOAD_PATH g b st1
      else (Raise b, st1)
  end.
Proof.
  unfold attempt, try_except, bind.
  destruct (download_validated _ _ _ _ _ _ _) as [[[]|[msg|msg|b]] st1]; try done.
  destruct (interruption b) eqn:Hb.
  - by rewrite handlers_interruption_b.
  - by rewrite handlers_other.
Qed.

(** The handler never returns. *)
Lemma cleanup_never_returns (genre : string) (e : exn) (st : state) :
  fst (cleanup_and_exit DOWNLOAD_PATH genre e st) <> Ok tt.
Proof.
  unfold cleanup_and_exit, get_filename. unfold bind at 1.
  destruct (filename st); [|done].
  unfold bind at 1. destruct (unlink _ _ _) as [[[]|?] ?]; done.
Qed.

Lemma batch_result (l : list (string * string * string)) (st : state) :
  let rs := outcomes DOWNLOAD_PATH W l st in
  let r := fst (batch DOWNLOAD_PATH W l st) in
  (r = Ok tt -> forallb handled rs = true /\ length rs = length l)
  /\ (forall b : builtin_exn, Raise b ∈ rs ->
        r <> Ok tt /\ (interruption b = false -> r = Raise b)).
Proof.
  revert st. induction l as [|[[g a] t] l IH]; intros st.
  - simpl. split; [done|]. intros b Hb. by apply elem_of_nil in Hb.
  - cbn [outcomes]. unfold batch in *. cbn [for_each]. unfold bind.
    pose proof (attempt_by_outcome g a t st) as Hatt.
    destruct (download_validated _ _ _ _ _ _ _) as [r1 st1]. cbn [fst].
    rewrite Hatt. clear Hatt.
    destruct r1 as [[]|[msg|msg|b]].
    1-3: cbn [forallb handled andb length];
         match goal with |- context [outcomes _ _ _ ?s] =>
           destruct (IH s) as (Hok & Hin) end;
         (split;
            [ intros H; destruct (Hok H) as [? ?]; split; [done | by f_equal]
            | intros b [[=]|Hb]%elem_of_cons; by apply Hin ]).
    destruct (interruption b) eqn:Hb.
    + pose proof (cleanup_never_returns g b st1) as Hc.
      destruct (cleanup_and_exit DOWNLOAD_PATH g b st1) as [[[]|x] st2]; [done|].
      cbn [fst]. split; [done|].
      intros b' [[= <-]|Hb']%elem_of_cons; [|by apply elem_of_nil in Hb'].
      split; [done|]. by rewrite Hb.
    + cbn [fst]. split; [done|].
      intros b' [[= <-]|Hb']%elem_of_cons; [|by apply elem_of_nil in Hb'].
      done.
Qed.

(** X10.  The result of the batch and the results of its per-track calls.
    [main] returns normally only when no call raised a builtin exception;
    every request was then called and the last event is the closing banner.
    A call that raises a builtin exception ends the run: [main] does not
    return normally, and when the exception is neither [KeyboardInterrupt]
    nor [ConnectionResetError] no [except] clause catches it and [main]
    raises that same exception. *)
Theorem main_result (tracks : list (string * list (string * list string)))
    (st : state) :
  let rs := outcomes DOWNLOAD_PATH W (triples tracks) (after_banner st) in
  let '(r, st') := main DOWNLOAD_PATH W tracks st in
  (r = Ok tt ->
     forallb handled rs = true
     /\ length rs = length (triples tracks)
     /\ last (trace st') = Some (EPrint "Download routine complete."))
  /\ (forall b : builtin_exn, Raise b ∈ rs ->
        r <> Ok tt /\ (interruption b = false -> r = Raise b)).
Proof.
  intros rs. rewrite main_run.
  destruct (batch_result (triples tracks) (after_banner st)) as (Hok & Hin).
  fold rs in Hok, Hin.
  destruct (batch _ _ _ _) as [[[]|e] st1]; cbn [fst] in *.
  - split.
    + intros _. destruct (Hok eq_refl) as [? ?]. split_and!; [done..|].
      cbn [trace]. by rewrite last_snoc.
    + intros b Hb. by destruct (Hin b Hb) as [? _].
  - split; [done|]. intros b Hb. apply (Hin b Hb).
Qed.

End MainResult.

(** ** The import-time checks *)

(** The final component of the tracks path is ['tracks.toml']. *)
Lemma path_suffix_tracks (base : string) : path_suffix (base +:+ "/tracks.toml") = ".toml".
Proof.
  change (base +:+ "/tracks.toml") with (base +:+ String sep "tracks.toml").
  unfold path_suffix, name. rewrite rsplit_app_sep. reflexivity.
Qed.

(** X11.  Of the three import-time assertions only the first and the
    third can fail: the tracks path is built from the literal
    ['tracks.toml'], so its suffix is ['.toml'] whatever the location of the
    module.  When the import succeeds, the download root is the directory
    'downloads' next to the package, the tracks file exists and was parsed,
    and every target directory named without a separator has the download
    root as its parent directory, which is what [mkdir] without [parents]
    needs. *)
Theorem import_checks (base : string) (resolve : string -> string)
    (m : gmap string node)
    (load : string -> answer (list (string * list (string * list string)))) :
  path_suffix (base +:+ "/tracks.toml") = ".toml"
  /\ (forall msg,
        import_module base resolve m load = AssertionError msg ->
        (is_dir m (base +:+ "/downloads") = false
         /\ msg = "Download path must lead to a directory. Check the path: "
                  +:+ resolve (base +:+ "/downloads"))
        \/ (is_file m (base +:+ "/tracks.toml") = false
            /\ msg = "Tracks path must lead to a file. Check the path: "
                     +:+ resolve (base +:+ "/tracks.toml")))
  /\ (forall DOWNLOAD_PATH tracks,
        import_module base resolve m load = Imported DOWNLOAD_PATH tracks ->
        DOWNLOAD_PATH = base +:+ "/downloads"
        /\ is_dir m DOWNLOAD_PATH = true
        /\ is_file m (base +:+ "/tracks.toml") = true
        /\ load (base +:+ "/tracks.toml") = Returns tracks
        /\ forall target_dir,
             rsplit sep target_dir = None ->
             parent_is_dir m (DOWNLOAD_PATH +:+ "/" +:+ target_dir) = true).
Proof.
  pose proof (path_suffix_tracks base) as Hs.
  unfold import_module. cbv zeta. rewrite Hs. cbn [String.eqb Ascii.eqb Bool.eqb negb].
  split_and!; [done| |].
  - intros msg. destruct (is_dir m _) eqn:Hd; cbn [negb].
    + destruct (is_file m _) eqn:Hf; cbn [negb].
      * destruct (load _); discriminate.
      * intros [= <-]. right. done.
    + intros [= <-]. left. done.
  - intros D tracks. destruct (is_dir m _) eqn:Hd; cbn [negb]; [|discriminate].
    destruct (is_file m _) eqn:Hf; cbn [negb]; [|discriminate].
    destruct (load _) eqn:Hl; [|discriminate].
    intros [= <- <-]. split_and!; try done.
    intros d Hsep. by apply parent_is_dir_target.
Qed.
(** ** The further properties on sample inputs *)

Import Cases.

Lemma seconds_to_mins_reads_back_witness :
  exists minutes seconds,
    seconds_to_mins 3725 = pretty minutes +:+ "m " +:+ pretty seconds +:+ "s"
    /\ 3725 = 60 * minutes + seconds
    /\ 0 <= seconds < 60.
Proof. exact (proj1 (seconds_to_mins_reads_back 3725 0)). Defined.

Lemma download_rejection_witness :
  let st0 := initial_state fs_root in
  let st' := snd (download DL W_small "Daft Punk" "One More Time" "house" None st0) in
  Forall no_download_or_transcode (new_events st0 st')
  /\ is_dir (fs st') (DL +:+ "/house") = true.
Proof.
  intros st0 st'.
  destruct (download_rejection DL W_small "Daft Punk" "One More Time" "house" None st0 st'
              "Unexpectedly small file size. Skipping...")
    as (_ & Hev & _ & Hdir).
  { vm_compute. reflexivity. }
  split; [exact Hev | exact Hdir].
Defined.

Lemma failed_run_leaves_intermediate_witness :
  let st0 := initial_state fs_root in
  let st' := snd (download DL W_transcode_fails "Daft Punk" "One More Time" "house" None st0) in
  is_file (fs st') (intermediate_path DL "Daft Punk" "One More Time" "house") = true.
Proof.
  intros st0 st'.
  destruct (failed_run_leaves_intermediate DL W_transcode_fails "Daft Punk" "One More Time"
              "house" None st0 st' (OtherError "ffmpeg exited with status 1"))
    as (Hfile & _).
  { vm_compute. reflexivity. }
  { vm_compute. repeat first [apply list_elem_of_here | apply list_elem_of_further]. }
  exact Hfile.
Defined.

Lemma download_missing_directory_witness :
  fst (download DL W_ok "Daft Punk" "One More Time" "house" None (initial_state fs_blocked))
  = Raise FileExistsError
  /\ fst (download DL W_ok "Daft Punk" "One More Time" "f/x" None
            (initial_state fs_file_in_path))
     = Raise NotADirectoryError
  /\ fst (download DL W_ok "Daft Punk" "One More Time" "house" None (initial_state ∅))
     = Raise FileNotFoundError
  /\ is_dir (fs (snd (download DL W_ok "Daft Punk" "One More Time" "house" None
                        (initial_state fs_root)))) (DL +:+ "/house") = true.
Proof.
  split_and!.
  - pose proof (download_missing_directory DL W_ok "Daft Punk" "One More Time" "house" None
                  (initial_state fs_blocked) eq_refl) as H.
    destruct (download _ _ _ _ _ _ _) as [r st']. destruct H as (evs & _ & H & _).
    by destruct (H eq_refl) as [? _].
  - pose proof (download_missing_directory DL W_ok "Daft Punk" "One More Time" "f/x" None
                  (initial_state fs_file_in_path) eq_refl) as H.
    destruct (download _ _ _ _ _ _ _) as [r st']. destruct H as (evs & _ & _ & H & _).
    by destruct (H eq_refl eq_refl eq_refl) as [? _].
  - pose proof (download_missing_directory DL W_ok "Daft Punk" "One More Time" "house" None
                  (initial_state ∅) eq_refl) as H.
    destruct (download _ _ _ _ _ _ _) as [r st']. destruct H as (evs & _ & _ & _ & H & _).
    by destruct (H DL eq_refl eq_refl ltac:(discriminate) eq_refl eq_refl) as [? _].
  - pose proof (download_missing_directory DL W_ok "Daft Punk" "One More Time" "house" None
                  (initial_state fs_root) eq_refl) as H.
    destruct (download _ _ _ _ _ _ _) as [r st']. destruct H as (evs & _ & _ & _ & _ & H).
    apply H; reflexivity.
Defined.

Lemma download_success_trace_witness :
  let st0 := initial_state fs_genre in
  let st' := snd (download DL W_ok "Daft Punk" "One More Time" "house" None st0) in
  filter (fun e => is_collaborator_call e = true) (new_events st0 st')
  = [ESearch "Daft Punk One More Time";
     EGetAudioOnly "webm";
     EDownload "/downloads/house" "Daft Punk - One More Time.mp4" 30;
     EAudioFileClip "/downloads/house/Daft Punk - One More Time.mp4";
     EWriteAudiofile "/downloads/house/Daft Punk - One More Time.mp3";
     EClose].
Proof.
  intros st0 st'.
  destruct (download_success_trace DL W_ok "Daft Punk" "One More Time" "house" None st0 st')
    as (yt & others & title & len & audio & size & x & _ & _ & _ & _ & _ & _ & -> & _).
  { vm_compute. reflexivity. }
  reflexivity.
Defined.

Lemma download_again_skips_witness :
  let st1 := snd (download DL W_ok "Simon" "Garfunkel - The Boxer" "folk" None
                    (initial_state fs_root)) in
  exists msg,
    download DL W_empty "Simon - Garfunkel" "The Boxer" "folk" None st1
    = (Raise (TrackAlreadyDownloaded msg),
       mkState (fs st1) (Some "Simon - Garfunkel - The Boxer.mp4") (trace st1)).
Proof.
  intros st1.
  apply (download_again_skips DL W_ok W_empty "Simon" "Garfunkel - The Boxer" "folk"
           "Simon - Garfunkel" "The Boxer" None None (initial_state fs_root) st1 st1).
  - vm_compute. reflexivity.
  - reflexivity.
  - reflexivity.
Defined.

Lemma main_keeps_files_witness :
  is_file (fs (snd (main DL W_reset two_tracks (initial_state fs_done))))
          (output_path_of DL "Daft Punk" "One More Time" "house") = true.
Proof.
  destruct (main_keeps_files DL W_reset two_tracks (initial_state fs_done) I)
    as (_ & _ & H & _).
  apply H. reflexivity.
Defined.

Lemma main_raises_witness :
  fst (main DL W_empty two_tracks (initial_state fs_genre)) = Raise IndexError
  /\ escapes_main IndexError = true.
Proof.
  split; [vm_compute; reflexivity|].
  apply (main_raises DL W_empty two_tracks (initial_state fs_genre) IndexError).
  vm_compute. reflexivity.
Defined.

Lemma main_result_witness :
  last (trace (snd (main DL W_long one_track (initial_state fs_root))))
  = Some (EPrint "Download routine complete.")
  /\ fst (main DL W_empty two_tracks (initial_state fs_genre)) = Raise IndexError.
Proof.
  split.
  - pose proof (main_result DL W_long one_track (initial_state fs_root)) as H.
    cbv zeta in H. destruct (main _ _ _ _) as [r st'] eqn:Hrun. destruct H as (H & _).
    assert (Hr : r = Ok tt) by (vm_compute in Hrun; by injection Hrun as <- _).
    by destruct (H Hr) as (_ & _ & ?).
  - pose proof (main_result DL W_empty two_tracks (initial_state fs_genre)) as H.
    cbv zeta in H. destruct (main _ _ _ _) as [r st']. destruct H as (_ & H).
    destruct (H IndexError) as [_ Hr].
    { vm_compute. apply list_elem_of_here. }
    by apply Hr.
Defined.

(** C5 as stated, at one input: a title that ends with a separator.  The
    run succeeds, but the output is not at 'target/artist - title.mp3': the
    final component of the intermediate path is ['.mp4'], which has no suffix
    to replace, so the output is written next to it as ['.mp4.mp3']. *)
Lemma C5_counterexample :
  let st' := snd (download DL W_ok "A" "x/" "house" None (initial_state fs_nested)) in
  fst (download DL W_ok "A" "x/" "house" None (initial_state fs_nested)) = Ok tt
  /\ is_file (fs st') (DL +:+ "/" +:+ "house" +:+ "/" +:+ "A" +:+ " - " +:+ "x/" +:+ ".mp3")
     = false
  /\ fs st' !! (DL +:+ "/" +:+ "house" +:+ "/" +:+ "A" +:+ " - " +:+ "x/" +:+ ".mp3") = None
  /\ is_file (fs st') "/downloads/house/A - x/.mp4.mp3" = true
  /\ output_path_of DL "A" "x/" "house" = "/downloads/house/A - x/.mp4.mp3".
Proof. vm_compute. done. Qed.

Lemma import_checks_witness :
  parent_is_dir fs_app ("/app/downloads" +:+ "/" +:+ "house") = true.
Proof.
  destruct (import_checks "/app" (fun p => p) fs_app (fun _ => Returns one_track))
    as (_ & _ & H).
  destruct (H "/app/downloads" one_track ltac:(vm_compute; reflexivity))
    as (_ & _ & _ & _ & H').
  apply H'. reflexivity.
Defined.
